(** * Shakti API access layer of plugin.video.netflix: cache bookkeeping

    A shallow embedding of [resources/lib/api/shakti.py].  Every function of
    the module is a computation in a small state-and-exception monad over a
    [world] holding the two cache tiers, the last-location marker, the clock,
    the add-on settings, the remote service and a log of the remote calls and
    cache invalidations performed so far. *)

From Stdlib Require Import ZArith QArith Qminmax Lqa Ascii String.
From stdpp Require Import gmap strings list fin_maps countable.

Set Warnings "-register-all".
Open Scope Z_scope.
Open Scope string_scope.
Open Scope list_scope.

(** ** Python values *)

(** Numbers as [rate] sees them: a Python 2 [int] or a [float].  A finite
    float is given by the rational it denotes; the other floats are the two
    infinities and NaN. *)
Inductive pynum :=
| PInt (z : Z)
| PFloat (q : Q)
| PInf (negative : bool)
| PNaN.

(** The values that travel through the module: identifiers, JSON payloads of
    the remote service, and the wrapper objects of [data_types]. *)
Inductive value :=
| VNone
| VNum (n : pynum)
| VStr (s : string)
| VList (xs : list value)
| VDict (kvs : list (string * value))
| LoLoMo (raw : value)
| VideoList (raw : value)
| SeasonList (tvshow_id raw : value)
| EpisodeList (tvshow_id season_id raw : value).

Definition VInt (z : Z) : value := VNum (PInt z).

(** Values serve as identifiers of cache entries, so they are countable.
    The instance goes through stdpp's generic trees. *)
Definition leaf : Type := Z + (Z * positive) + string.

Definition tag_of_bool (b : bool) : nat := if b then 8%nat else 9%nat.

Fixpoint value_to_tree (v : value) : gen_tree leaf :=
  match v with
  | VNone => GenNode 0 []
  | VNum (PInt z) => GenLeaf (inl (inl z))
  | VNum (PFloat q) => GenLeaf (inl (inr (Qnum q, Qden q)))
  | VNum (PInf negative) => GenNode (tag_of_bool negative) []
  | VNum PNaN => GenNode 10 []
  | VStr s => GenLeaf (inr s)
  | VList xs => GenNode 1 (map value_to_tree xs)
  | VDict kvs =>
      GenNode 2 (map (fun kv => GenNode 3 [GenLeaf (inr (fst kv));
                                           value_to_tree (snd kv)]) kvs)
  | LoLoMo raw => GenNode 4 [value_to_tree raw]
  | VideoList raw => GenNode 5 [value_to_tree raw]
  | SeasonList t raw => GenNode 6 [value_to_tree t; value_to_tree raw]
  | EpisodeList t s raw =>
      GenNode 7 [value_to_tree t; value_to_tree s; value_to_tree raw]
  end.

Fixpoint tree_to_value (t : gen_tree leaf) : value :=
  match t with
  | GenLeaf (inl (inl z)) => VNum (PInt z)
  | GenLeaf (inl (inr (n, d))) => VNum (PFloat (Qmake n d))
  | GenLeaf (inr s) => VStr s
  | GenNode 1 ts => VList (map tree_to_value ts)
  | GenNode 2 ts =>
      VDict (map (fun t' => match t' with
                            | GenNode _ [GenLeaf (inr k); tv] =>
                                (k, tree_to_value tv)
                            | _ => (EmptyString, VNone)
                            end) ts)
  | GenNode 4 [r] => LoLoMo (tree_to_value r)
  | GenNode 5 [r] => VideoList (tree_to_value r)
  | GenNode 6 [a; r] => SeasonList (tree_to_value a) (tree_to_value r)
  | GenNode 7 [a; b; r] =>
      EpisodeList (tree_to_value a) (tree_to_value b) (tree_to_value r)
  | GenNode 8 [] => VNum (PInf true)
  | GenNode 9 [] => VNum (PInf false)
  | GenNode 10 [] => VNum PNaN
  | GenNode _ _ => VNone
  end.

Lemma tree_to_value_to_tree (v : value) : tree_to_value (value_to_tree v) = v.
Proof.
  revert v. fix IH 1.
  intros [| [z | [n d] | [|] |] | s | xs | kvs | r | r | a r | a b r];
    simpl; try reflexivity.
  - f_equal. induction xs as [| x xs IHxs]; simpl; [reflexivity |].
    by rewrite IH, IHxs.
  - f_equal. induction kvs as [| [k v] kvs IHkvs]; simpl; [reflexivity |].
    by rewrite IH, IHkvs.
  - by rewrite IH.
  - by rewrite IH.
  - by rewrite !IH.
  - by rewrite !IH.
Qed.

#[global] Instance value_eq_dec : EqDecision value.
Proof.
  intros x y. destruct (decide (value_to_tree x = value_to_tree y)) as [E | E].
  - left. rewrite <- (tree_to_value_to_tree x), <- (tree_to_value_to_tree y).
    by rewrite E.
  - right. intros ->. by apply E.
Defined.

#[global] Instance value_countable : Countable value :=
  inj_countable' value_to_tree tree_to_value tree_to_value_to_tree.

(** ** Exceptions and outcomes *)

(** The exceptions that can cross the module: its own
    [InvalidVideoListTypeError], the built-in ones raised by subscripting,
    attribute access and [int()], and the failure of a remote call. *)
Inductive exn :=
| InvalidVideoListTypeError (list_type : value)
| KeyError
| IndexError
| TypeError
| ValueError
| AttributeError
| OverflowError
| CallFailed.

Inductive result (A : Type) :=
| Ok (a : A)
| Raise (e : exn).
Arguments Ok {A} a.
Arguments Raise {A} e.

Definition is_KeyError (e : exn) : bool :=
  match e with KeyError => true | _ => false end.

(** ** Cache data model *)

(** Modelled from the spec: the buckets are constants of [resources.lib.cache],
    whose source is not at hand.  The spec's data model names a bucket per
    category of producer; these are the five the module registers. *)
Inductive bucket :=
| CACHE_COMMON
| CACHE_VIDEO_LIST
| CACHE_SEASONS
| CACHE_EPISODES
| CACHE_METADATA.

#[global] Instance bucket_eq_dec : EqDecision bucket.
Proof. solve_decision. Defined.

Definition bucket_to_nat (b : bucket) : nat :=
  match b with
  | CACHE_COMMON => 0 | CACHE_VIDEO_LIST => 1 | CACHE_SEASONS => 2
  | CACHE_EPISODES => 3 | CACHE_METADATA => 4
  end%nat.

Definition bucket_of_nat (n : nat) : bucket :=
  match n with
  | 0 => CACHE_COMMON | 1 => CACHE_VIDEO_LIST | 2 => CACHE_SEASONS
  | 3 => CACHE_EPISODES | _ => CACHE_METADATA
  end%nat.

Lemma bucket_of_to_nat (b : bucket) : bucket_of_nat (bucket_to_nat b) = b.
Proof. by destruct b. Qed.

#[global] Instance bucket_countable : Countable bucket :=
  inj_countable' bucket_to_nat bucket_of_nat bucket_of_to_nat.

(** Modelled from the spec: a time-to-live is a duration or "no expiry"
    (section 3, CacheEntry). *)
Inductive ttl :=
| Forever
| Lasts (d : Z).

(** Modelled from the spec: a cache entry (section 3).  Its key and bucket are
    its address in the tier that holds it. *)
Record entry := {
  e_value : value;
  e_created : Z;
  e_ttl : ttl;
}.

(** Modelled from the spec: the address of an entry is its bucket with the
    identifier: a fixed string or the designated argument (section 4.1; the
    scenario of section 8 writes the key as the pair of bucket and
    identifier).  The module's own invalidation call sites address the
    entries of its cached operations in exactly this way:
    [invalidate_entry(CACHE_METADATA, tvshowid)] for [metadata(tvshowid)] and
    [invalidate_entry(CACHE_COMMON, 'root_lists')] for [root_lists()]. *)
Abbreviation key := (bucket * value)%type.

(** ** Remote calls *)

(** The methods of [NetflixSession] that the module passes to
    [common.make_call]. *)
Inductive session_method :=
| NetflixSession_activate_profile
| NetflixSession_logout
| NetflixSession_login
| NetflixSession_list_profiles
| NetflixSession_path_request
| NetflixSession_post
| NetflixSession_get.

Record request := {
  rq_method : session_method;
  rq_data : value;
}.

(** What the log records: every remote call and every call of one of the
    three invalidation operations, in program order. *)
Inductive event :=
| Called (rq : request)
| InvalidatedCache
| InvalidatedLastLocation
| InvalidatedEntry (b : bucket) (identifier : value).

Definition calls_of (l : list event) : list request :=
  omap (fun ev => match ev with Called rq => Some rq | _ => None end) l.

Definition is_invalidation (ev : event) : bool :=
  match ev with Called _ => false | _ => true end.

Definition invalidations_of (l : list event) : list event :=
  List.filter is_invalidation l.

(** ** The world *)

(** [mem] and [disk] are the two storage tiers, [last_location] the
    last-viewed-location marker that lives outside the buckets.  [now] is the
    clock, [settings] the add-on's boolean settings.  [service] is the remote
    side: given the requests answered so far and a new request it answers
    with a payload or fails.  [log] is the history. *)
Record world := {
  mem : gmap key entry;
  disk : gmap key entry;
  last_location : option value;
  now : Z;
  settings : string -> bool;
  service : list request -> request -> option value;
  log : list event;
}.

Definition set_mem (m : gmap key entry) (w : world) : world :=
  {| mem := m; disk := disk w; last_location := last_location w; now := now w;
     settings := settings w; service := service w; log := log w |}.

Definition set_disk (d : gmap key entry) (w : world) : world :=
  {| mem := mem w; disk := d; last_location := last_location w; now := now w;
     settings := settings w; service := service w; log := log w |}.

Definition set_last_location (l : option value) (w : world) : world :=
  {| mem := mem w; disk := disk w; last_location := l; now := now w;
     settings := settings w; service := service w; log := log w |}.

Definition set_now (t : Z) (w : world) : world :=
  {| mem := mem w; disk := disk w; last_location := last_location w; now := t;
     settings := settings w; service := service w; log := log w |}.

Definition record (ev : event) (w : world) : world :=
  {| mem := mem w; disk := disk w; last_location := last_location w;
     now := now w; settings := settings w; service := service w;
     log := log w ++ [ev] |}.

(** ** The monad: state with exceptions *)

(** A computation maps a world to an outcome and the world it leaves.  An
    exception keeps the effects performed before it was raised. *)
Definition M (A : Type) : Type := world -> result A * world.

Definition ret {A} (a : A) : M A := fun w => (Ok a, w).

Definition raise {A} (e : exn) : M A := fun w => (Raise e, w).

Definition bind {A B} (m : M A) (k : A -> M B) : M B :=
  fun w => match m w with
           | (Ok a, w') => k a w'
           | (Raise e, w') => (Raise e, w')
           end.

Declare Scope M_scope.
Delimit Scope M_scope with M.
Notation "x <- m ;; k" := (bind m (fun x => k))
  (at level 100, m at next level, k at level 200, right associativity)
  : M_scope.
Notation "m ;; k" := (bind m (fun _ => k))
  (at level 100, k at level 200, right associativity) : M_scope.
Open Scope M_scope.

(** A pure step that may raise. *)
Definition lift {A} (r : result A) : M A := fun w => (r, w).

(** [try: body except <caught>: handler]. *)
Definition try_except {A} (body : M A) (caught : exn -> bool) (handler : M A)
  : M A :=
  fun w => match body w with
           | (Ok a, w') => (Ok a, w')
           | (Raise e, w') => if caught e then handler w' else (Raise e, w')
           end.

Definition outcome {A} (m : M A) (w : world) : result A := fst (m w).
Definition after {A} (m : M A) (w : world) : world := snd (m w).

(** ** Python built-ins used by the module *)

Fixpoint dict_lookup (kvs : list (string * value)) (k : string)
  : option value :=
  match kvs with
  | [] => None
  | (k', v) :: rest => if String.eqb k' k then Some v else dict_lookup rest k
  end.

(** [v[k]] for a string [k]: a dict answers or raises [KeyError]; nothing else
    that reaches the module can be subscripted by a string. *)
Definition py_getitem (v : value) (k : string) : result value :=
  match v with
  | VDict kvs => match dict_lookup kvs k with
                 | Some x => Ok x
                 | None => Raise KeyError
                 end
  | _ => Raise TypeError
  end.

(** [v.get(k, dflt)]: only a dict has the method.  A list or a dict is
    unhashable and cannot be looked up; dict keys are strings, so any other
    [k] that is no string is absent. *)
Definition py_get (v k dflt : value) : result value :=
  match v with
  | VDict kvs => match k with
                 | VStr s => Ok (default dflt (dict_lookup kvs s))
                 | VList _ | VDict _ => Raise TypeError
                 | _ => Ok dflt
                 end
  | _ => Raise AttributeError
  end.

(** Float arithmetic rounds.  [float_round] sends a rational to the float
    that an operation with that exact result returns; it is taken as a
    parameter with the two laws the module's arithmetic needs: rounding is
    monotone, and the integers of magnitude up to 2^53 are floats. *)
Class FloatArithmetic := {
  float_round : Q -> Q;
  float_round_proper : Proper (Qeq ==> Qeq) float_round;
  float_round_le :
    forall a b : Q, (a <= b)%Q -> (float_round a <= float_round b)%Q;
  float_round_int :
    forall z : Z, (Z.abs z <= 2 ^ 53)%Z ->
                  (float_round (inject_Z z) == inject_Z z)%Q;
}.

(** The number a finite [pynum] denotes. *)
Definition py_finite (n : pynum) : option Q :=
  match n with
  | PInt z => Some (inject_Z z)
  | PFloat q => Some q
  | PInf _ | PNaN => None
  end.

Definition py_to_Q (n : pynum) : Q := default 0%Q (py_finite n).

(** Comparison, [max] and [min] on numbers, as Python 2 evaluates them:
    an int and a float are compared by value, every comparison with NaN is
    false, and [max] and [min] return their first argument unless the second
    is strictly larger (smaller). *)
Definition py_lt (a b : pynum) : bool :=
  match a, b with
  | PNaN, _ | _, PNaN => false
  | PInf na, PInf nb => na && negb nb
  | PInf na, _ => na
  | _, PInf nb => negb nb
  | _, _ => match Qcompare (py_to_Q a) (py_to_Q b) with
            | Lt => true
            | _ => false
            end
  end.

Definition py_max (a b : pynum) : pynum := if py_lt a b then b else a.

Definition py_min (a b : pynum) : pynum := if py_lt b a then b else a.

(** [a / 2]: floor division on an int, a rounded division on a finite float;
    an infinity and NaN stay what they are. *)
Definition py_halve {fa : FloatArithmetic} (a : pynum) : pynum :=
  match a with
  | PInt x => PInt (x / 2)
  | PFloat q => PFloat (float_round (q / 2))
  | PInf negative => PInf negative
  | PNaN => PNaN
  end.

(** [int(v)]: an int is itself, a finite float is truncated towards zero, an
    infinity is an [OverflowError] and NaN a [ValueError], a string is read
    as an optionally signed decimal numeral with surrounding blanks ignored,
    anything else is a [TypeError]. *)
Definition is_blank (a : ascii) : bool :=
  let n := nat_of_ascii a in
  (Nat.eqb n 32 || (Nat.leb 9 n && Nat.leb n 13))%bool.

Fixpoint strip_left (cs : list ascii) : list ascii :=
  match cs with
  | c :: rest => if is_blank c then strip_left rest else cs
  | [] => []
  end.

Definition strip (cs : list ascii) : list ascii :=
  rev (strip_left (rev (strip_left cs))).

Definition digit_of (a : ascii) : option Z :=
  let n := nat_of_ascii a in
  if (Nat.leb 48 n && Nat.leb n 57)%bool then Some (Z.of_nat n - 48) else None.

Fixpoint digits_value (acc : Z) (cs : list ascii) : option Z :=
  match cs with
  | [] => Some acc
  | c :: rest => match digit_of c with
                 | Some d => digits_value (10 * acc + d) rest
                 | None => None
                 end
  end.

Definition numeral_value (cs : list ascii) : option Z :=
  match cs with
  | [] => None
  | _ => digits_value 0 cs
  end.

Definition int_of_string (s : string) : option Z :=
  match strip (list_ascii_of_string s) with
  | "+"%char :: cs => numeral_value cs
  | "-"%char :: cs => Z.opp <$> numeral_value cs
  | cs => numeral_value cs
  end.

Definition py_int (v : value) : result Z :=
  match v with
  | VNum (PInt z) => Ok z
  | VNum (PFloat q) => Ok (Z.quot (Qnum q) (Zpos (Qden q)))
  | VNum (PInf _) => Raise OverflowError
  | VNum PNaN => Raise ValueError
  | VStr s => match int_of_string s with
              | Some z => Ok z
              | None => Raise ValueError
              end
  | _ => Raise TypeError
  end.

(** [json.dumps(v)] succeeds on [None], numbers, strings and on lists and
    dicts of such values; the wrapper objects of [data_types] are no JSON
    and make it raise [TypeError]. *)
Fixpoint json_encodable (v : value) : bool :=
  match v with
  | VNone | VNum _ | VStr _ => true
  | VList xs => forallb json_encodable xs
  | VDict kvs => forallb (fun kv => json_encodable (snd kv)) kvs
  | LoLoMo _ | VideoList _ | SeasonList _ _ | EpisodeList _ _ _ => false
  end.

(** The chain [video.get('seasons', {}).get(seasonid, {}).get('episodes', {})
    .get(episodeid, {})] of [episode_metadata]. *)
Definition get_episode (video seasonid episodeid : value) : result value :=
  match py_get video (VStr "seasons") (VDict []) with
  | Raise e => Raise e
  | Ok all_seasons =>
      match py_get all_seasons seasonid (VDict []) with
      | Raise e => Raise e
      | Ok season =>
          match py_get season (VStr "episodes") (VDict []) with
          | Raise e => Raise e
          | Ok all_episodes => py_get all_episodes episodeid (VDict [])
          end
      end
  end.

(** The episode is there: every level of the path is a dict that holds the
    next key. *)
Definition episode_at (video seasonid episodeid found : value) : Prop :=
  exists kvs all_seasons s season all_episodes e,
    video = VDict kvs /\
    dict_lookup kvs "seasons" = Some (VDict all_seasons) /\
    seasonid = VStr s /\
    dict_lookup all_seasons s = Some (VDict season) /\
    dict_lookup season "episodes" = Some (VDict all_episodes) /\
    episodeid = VStr e /\
    dict_lookup all_episodes e = Some found.

(** ** Names imported from modules whose source is not at hand *)

(** The partial-path tables of [.paths], the metadata TTL constant of
    [resources.lib.common], the per-bucket default TTL of
    [resources.lib.cache], [LoLoMo.lists_by_context] of [.data_types] (the
    pairs of list id and video list its generator yields, in order, for the
    lists whose context is the one asked for) and [common.find_episode]. *)
Class Collaborators := {
  VIDEO_LIST_PARTIAL_PATHS : list (list value);
  SEASONS_PARTIAL_PATHS : list (list value);
  EPISODES_PARTIAL_PATHS : list (list value);
  ART_PARTIAL_PATHS : list (list value);
  CACHE_METADATA_TTL : Z;
  default_ttl : bucket -> ttl;
  lists_by_context : value -> value -> list (value * value);
  find_episode : value -> value -> result value;
}.

(** ** [resources.lib.common] *)

(** Modelled from the spec: [common.make_call] is the one door to the data
    source, "fetch(request) -> raw_result, which may be slow and may fail"
    (section 1); a failure reaches the caller as an exception (section 7,
    ProducerFailure).  The call is logged whether or not it succeeds. *)
Definition make_call (func : session_method) (data : value) : M value :=
  fun w =>
    let rq := {| rq_method := func; rq_data := data |} in
    match service w (calls_of (log w)) rq with
    | Some raw => (Ok raw, record (Called rq) w)
    | None => (Raise CallFailed, record (Called rq) w)
    end.

(** [common.debug] writes to Kodi's log, which the model does not hold. *)
Definition debug (msg : string) : M unit := ret tt.

(** [common.ADDON.getSettingBool]. *)
Definition getSettingBool (name : string) : M bool :=
  fun w => (Ok (settings w name), w).

(** ** [resources.lib.cache] *)

Section Cache.
Context {collab : Collaborators}.

(** Modelled from the spec: freshness is [now - created_at < ttl], equality
    counts as expired (section 4.3); an entry without expiry is always
    fresh. *)
Definition fresh (t : Z) (e : entry) : bool :=
  match e_ttl e with
  | Forever => true
  | Lasts d => bool_decide (t - e_created e < d)
  end.

(** Modelled from the spec: a stale entry is logically absent for reads
    (section 3, lifecycle). *)
Definition lookup_fresh (tier : gmap key entry) (k : key) (t : Z)
  : option entry :=
  match tier !! k with
  | Some e => if fresh t e then Some e else None
  | None => None
  end.

(** Modelled from the spec: "ttl = ttl_override or bucket.default_ttl"
    (section 4.2, step 3). *)
Definition effective_ttl (b : bucket) (ttl_override : option Z) : ttl :=
  match ttl_override with
  | Some d => Lasts d
  | None => default_ttl b
  end.

(** Modelled from the spec: the Cache Engine's [get_or_compute] (section 4.2):
    memory hit; else, when the disk tier is allowed, disk hit promoted into
    memory; else the producer is invoked, its failure propagates with nothing
    written, its value is written to memory always and to disk when
    allowed. *)
Definition get_or_compute (b : bucket) (k : key) (producer : M value)
    (ttl_override : option Z) (allow_disk : bool) : M value :=
  fun w =>
    match lookup_fresh (mem w) k (now w) with
    | Some e => (Ok (e_value e), w)
    | None =>
        match (if allow_disk then lookup_fresh (disk w) k (now w) else None) with
        | Some e => (Ok (e_value e), set_mem (<[k := e]> (mem w)) w)
        | None =>
            match producer w with
            | (Raise x, w') => (Raise x, w')
            | (Ok v, w') =>
                let e := {| e_value := v; e_created := now w';
                            e_ttl := effective_ttl b ttl_override |} in
                (Ok v,
                 set_disk (if allow_disk then <[k := e]> (disk w')
                           else disk w')
                   (set_mem (<[k := e]> (mem w')) w'))
            end
        end
    end.

(** Modelled from the spec: [invalidate_cache()] "clears every entry in every
    bucket and tier" (section 4.4).  The last-location marker is outside the
    buckets and is not touched. *)
Definition invalidate_cache : M unit :=
  fun w => (Ok tt, record InvalidatedCache (set_disk ∅ (set_mem ∅ w))).

(** Modelled from the spec: [invalidate_entry(bucket, key)] "removes one entry
    from all tiers it may reside in, idempotent if absent" (section 4.4). *)
Definition invalidate_entry (b : bucket) (identifier : value) : M unit :=
  fun w =>
    (Ok tt,
     record (InvalidatedEntry b identifier)
       (set_disk (delete (b, identifier) (disk w))
          (set_mem (delete (b, identifier) (mem w)) w))).

(** Modelled from the spec: [invalidate_last_location()] "clears only the
    special last-viewed-location marker" (section 4.4). *)
Definition invalidate_last_location : M unit :=
  fun w => (Ok tt, record InvalidatedLastLocation (set_last_location None w)).

(** What a [@cache.cache_output(...)] line declares: the bucket, the position
    and name of the identifying parameter, a fixed identifier, a TTL and the
    disk flag; each of the last four may be left out. *)
Record registration := {
  reg_bucket : bucket;
  reg_param : option (nat * string);
  reg_fixed_identifier : option string;
  reg_ttl : option Z;
  reg_to_disk : bool;
}.

(** The argument a registration designates, when the call has it. *)
Definition designated_argument (reg : registration) (args : list value)
  : option value :=
  match reg_param reg with
  | Some (i, _) => args !! i
  | None => None
  end.

(** Modelled from the spec: the Key Builder (section 4.1).  A fixed identifier
    wins; otherwise the designated argument is selected.  [args] are the
    values bound to the producer's parameters, in declaration order, so the
    declared position and the declared name select the same value. *)
Definition build_key (reg : registration) (args : list value) : option key :=
  match reg_fixed_identifier reg with
  | Some fixed => Some (reg_bucket reg, VStr fixed)
  | None =>
      (fun v => (reg_bucket reg, v)) <$> designated_argument reg args
  end.

(** Modelled from the spec: the Call Interceptor (section 4.5): build the key
    and delegate to the engine.  A call that has no value at the designated
    position cannot be keyed; the spec gives it no behaviour and no call of
    this module is of that kind. *)
Definition cache_output (reg : registration) (args : list value)
    (producer : M value) : M value :=
  match build_key reg args with
  | Some k =>
      get_or_compute (reg_bucket reg) k producer (reg_ttl reg)
        (reg_to_disk reg)
  | None => raise IndexError
  end.

End Cache.

(** ** [resources.lib.api.shakti] *)

(** The eight functions of the module that carry a [@cache.cache_output]
    line. *)
Inductive cached_operation :=
| op_root_lists
| op_list_id_for_type
| op_video_list
| op_seasons
| op_episodes
| op_episode
| op_movie
| op_metadata.

#[global] Instance cached_operation_eq_dec : EqDecision cached_operation.
Proof. solve_decision. Defined.

Definition all_cached_operations : list cached_operation :=
  [op_root_lists; op_list_id_for_type; op_video_list; op_seasons;
   op_episodes; op_episode; op_movie; op_metadata].

(** The headers both posts send. *)
Definition json_headers : value :=
  VDict [("Content-Type", VStr "application/json");
         ("Accept", VStr "application/json, text/javascript, */*")].

Definition from_0_to_40 : value := VDict [("from", VInt 0); ("to", VInt 40)].

Section Shakti.
Context {collab : Collaborators} {fa : FloatArithmetic}.

(** The decorator line of each cached function, argument by argument. *)
Definition registration_of (op : cached_operation) : registration :=
  match op with
  | op_root_lists =>
      {| reg_bucket := CACHE_COMMON; reg_param := None;
         reg_fixed_identifier := Some "root_lists";
         reg_ttl := None; reg_to_disk := false |}
  | op_list_id_for_type =>
      {| reg_bucket := CACHE_COMMON; reg_param := Some (0%nat, "list_type");
         reg_fixed_identifier := None; reg_ttl := None; reg_to_disk := false |}
  | op_video_list =>
      {| reg_bucket := CACHE_VIDEO_LIST; reg_param := Some (0%nat, "list_id");
         reg_fixed_identifier := None; reg_ttl := None; reg_to_disk := false |}
  | op_seasons =>
      {| reg_bucket := CACHE_SEASONS; reg_param := Some (0%nat, "tvshow_id");
         reg_fixed_identifier := None; reg_ttl := None; reg_to_disk := false |}
  | op_episodes =>
      {| reg_bucket := CACHE_EPISODES; reg_param := Some (1%nat, "season_id");
         reg_fixed_identifier := None; reg_ttl := None; reg_to_disk := false |}
  | op_episode =>
      {| reg_bucket := CACHE_EPISODES; reg_param := Some (1%nat, "episode_id");
         reg_fixed_identifier := None; reg_ttl := None; reg_to_disk := false |}
  | op_movie =>
      {| reg_bucket := CACHE_EPISODES; reg_param := Some (0%nat, "movie_id");
         reg_fixed_identifier := None; reg_ttl := None; reg_to_disk := false |}
  | op_metadata =>
      {| reg_bucket := CACHE_METADATA; reg_param := Some (0%nat, "video_id");
         reg_fixed_identifier := None; reg_ttl := Some CACHE_METADATA_TTL;
         reg_to_disk := true |}
  end.

(** The parameter names of each cached function, in declaration order. *)
Definition parameters_of (op : cached_operation) : list string :=
  match op with
  | op_root_lists => []
  | op_list_id_for_type => ["list_type"]
  | op_video_list => ["list_id"]
  | op_seasons => ["tvshow_id"]
  | op_episodes => ["tvshow_id"; "season_id"]
  | op_episode => ["tvshow_id"; "episode_id"]
  | op_movie => ["movie_id"]
  | op_metadata => ["video_id"]
  end.

(** The argument of [common.debug] is evaluated first: [json.dumps(paths)]
    raises when a path holds a value that is no JSON. *)
Definition build_paths (base_path : list value)
    (partial_paths : list (list value)) : M (list value) :=
  let paths := map (fun partial_path => VList (base_path ++ partial_path))
                 partial_paths in
  (if json_encodable (VList paths) then ret tt else raise TypeError) ;;
  debug "json.dumps(paths)" ;;
  ret paths.




Definition profiles : M value :=
  make_call NetflixSession_list_profiles VNone.

Definition root_lists_request : request :=
  {| rq_method := NetflixSession_path_request;
     rq_data := VList [VList [VStr "lolomo"; from_0_to_40;
                              VList [VStr "displayName"; VStr "context";
                                     VStr "id"; VStr "index";
                                     VStr "length"]]] |}.

Definition root_lists : M value :=
  cache_output (registration_of op_root_lists) []
    (debug "Requesting root lists from API" ;;
     raw <- make_call (rq_method root_lists_request)
              (rq_data root_lists_request) ;;
     ret (LoLoMo raw)).

(** [next(...)] on an exhausted generator raises [StopIteration], which the
    function turns into its own error; [[0]] takes the list id of the first
    pair.  Only a [LoLoMo] has the method [lists_by_context]. *)
Definition list_id_for_type (list_type : value) : M value :=
  cache_output (registration_of op_list_id_for_type) [list_type]
    (lolomo <- root_lists ;;
     match lolomo with
     | LoLoMo _ =>
         match lists_by_context lolomo list_type with
         | [] => raise (InvalidVideoListTypeError list_type)
         | (list_id, _) :: _ =>
             debug "Resolved list ID for {} to {}" ;;
             ret list_id
         end
     | _ => raise AttributeError
     end).

Definition video_list (list_id : value) : M value :=
  cache_output (registration_of op_video_list) [list_id]
    (debug "Requesting video list {}" ;;
     paths <- build_paths [VStr "lists"; VList [list_id]; from_0_to_40;
                           VStr "reference"] VIDEO_LIST_PARTIAL_PATHS ;;
     raw <- make_call NetflixSession_path_request (VList paths) ;;
     ret (VideoList raw)).

Definition seasons (tvshow_id : value) : M value :=
  cache_output (registration_of op_seasons) [tvshow_id]
    (debug "Requesting season list for show {}" ;;
     paths <- build_paths [VStr "videos"; tvshow_id] SEASONS_PARTIAL_PATHS ;;
     raw <- make_call NetflixSession_path_request (VList paths) ;;
     ret (SeasonList tvshow_id raw)).

Definition episodes (tvshow_id season_id : value) : M value :=
  cache_output (registration_of op_episodes) [tvshow_id; season_id]
    (debug "Requesting episode list for show {}, season {}" ;;
     paths1 <- build_paths [VStr "seasons"; season_id; VStr "episodes";
                            from_0_to_40] EPISODES_PARTIAL_PATHS ;;
     paths2 <- build_paths [VStr "videos"; tvshow_id]
                 (ART_PARTIAL_PATHS ++ [[VStr "title"]]) ;;
     raw <- make_call NetflixSession_path_request (VList (paths1 ++ paths2)) ;;
     ret (EpisodeList tvshow_id season_id raw)).

Definition episode (tvshow_id episode_id : value) : M value :=
  cache_output (registration_of op_episode) [tvshow_id; episode_id]
    (debug "Requesting single episode info for {}" ;;
     paths1 <- build_paths [VStr "videos"; episode_id]
                 EPISODES_PARTIAL_PATHS ;;
     paths2 <- build_paths [VStr "videos"; tvshow_id]
                 (ART_PARTIAL_PATHS ++ [[VStr "title"]]) ;;
     make_call NetflixSession_path_request (VList (paths1 ++ paths2))).

Definition movie (movie_id : value) : M value :=
  cache_output (registration_of op_movie) [movie_id]
    (debug "Requesting movie info for {}" ;;
     paths <- build_paths [VStr "videos"; movie_id] EPISODES_PARTIAL_PATHS ;;
     make_call NetflixSession_path_request (VList paths)).

(** What [rate] sends for a rating: [min(10, max(0, rating)) / 2]. *)
Definition netflix_rating (rating : pynum) : pynum :=
  py_halve (py_min (PInt 10) (py_max (PInt 0) rating)).

Definition rate_request (video_id : value) (rating : pynum) : request :=
  {| rq_method := NetflixSession_post;
     rq_data := VDict [("component", VStr "set_video_rating");
                       ("headers", json_headers);
                       ("params", VDict [("titleid", video_id);
                                         ("rating", VNum rating)])] |}.

Definition rate (video_id : value) (rating : pynum) : M unit :=
  debug "Rating {} as {}" ;;
  let rating := netflix_rating rating in
  make_call (rq_method (rate_request video_id rating))
    (rq_data (rate_request video_id rating)) ;;
  ret tt.

Definition update_my_list_request (operation : string) (videoId : Z)
  : request :=
  {| rq_method := NetflixSession_post;
     rq_data := VDict [("component", VStr "update_my_list");
                       ("headers", json_headers);
                       ("data", VDict [("operation", VStr operation);
                                       ("videoId", VInt videoId)])] |}.

Definition full_wipe_flag : string := "invalidate_cache_on_mylist_modify".

(** [int(video_id)] is evaluated while the request is built, before the
    call. *)
Definition _update_my_list (video_id : value) (operation : string) : M unit :=
  videoId <- lift (py_int video_id) ;;
  make_call (rq_method (update_my_list_request operation videoId))
    (rq_data (update_my_list_request operation videoId)) ;;
  flag <- getSettingBool full_wipe_flag ;;
  if flag then
    invalidate_cache
  else
    invalidate_last_location ;;
    list_id <- list_id_for_type (VStr "queue") ;;
    invalidate_entry CACHE_VIDEO_LIST list_id ;;
    invalidate_entry CACHE_COMMON (VStr "queue") ;;
    invalidate_entry CACHE_COMMON (VStr "root_lists").

(** The world in which the selective path resolves the 'queue' list id: the
    post has been logged and the last-location marker cleared. *)
Definition selective_start (operation : string) (videoId : Z) (w : world)
  : world :=
  record InvalidatedLastLocation
    (set_last_location None
       (record (Called (update_my_list_request operation videoId)) w)).

(** The three entry invalidations that end the selective path. *)
Definition purge (list_id : value) : M unit :=
  invalidate_entry CACHE_VIDEO_LIST list_id ;;
  invalidate_entry CACHE_COMMON (VStr "queue") ;;
  invalidate_entry CACHE_COMMON (VStr "root_lists").

Definition add_to_list (video_id : value) : M unit :=
  debug "Adding {} to my list" ;;
  _update_my_list video_id "add".

Definition remove_from_list (video_id : value) : M unit :=
  debug "Removing {} from my list" ;;
  _update_my_list video_id "remove".

Definition browse_genre (genre_id : value) : M unit := ret tt.

Definition metadata_request (video_id : value) : request :=
  {| rq_method := NetflixSession_get;
     rq_data := VDict [("component", VStr "metadata");
                       ("req_type", VStr "api");
                       ("params", VDict [("movieid", video_id)])] |}.

Definition metadata (video_id : value) : M value :=
  cache_output (registration_of op_metadata) [video_id]
    (debug "Requesting metdata for {}" ;;
     response <- make_call (rq_method (metadata_request video_id))
                   (rq_data (metadata_request video_id)) ;;
     lift (py_getitem response "video")).

(** The body of the [try] and the body of the [except KeyError] of
    [episode_metadata]. *)
Definition episode_metadata_lookup (tvshowid episodeid : value) : M value :=
  video <- metadata tvshowid ;;
  all_seasons <- lift (py_getitem video "seasons") ;;
  lift (find_episode episodeid all_seasons).

Definition episode_metadata_recovery (tvshowid seasonid episodeid : value)
  : M value :=
  invalidate_entry CACHE_METADATA tvshowid ;;
  video <- metadata tvshowid ;;
  lift (get_episode video seasonid episodeid).

Definition episode_metadata (tvshowid seasonid episodeid : value) : M value :=
  try_except (episode_metadata_lookup tvshowid episodeid) is_KeyError
    (episode_metadata_recovery tvshowid seasonid episodeid).

(** A call of a cached function by name, with the values bound to its
    parameters; a call with the wrong number of arguments is a [TypeError]. *)
Definition call (op : cached_operation) (args : list value) : M value :=
  match op, args with
  | op_root_lists, [] => root_lists
  | op_list_id_for_type, [list_type] => list_id_for_type list_type
  | op_video_list, [list_id] => video_list list_id
  | op_seasons, [tvshow_id] => seasons tvshow_id
  | op_episodes, [tvshow_id; season_id] => episodes tvshow_id season_id
  | op_episode, [tvshow_id; episode_id] => episode tvshow_id episode_id
  | op_movie, [movie_id] => movie movie_id
  | op_metadata, [video_id] => metadata video_id
  | _, _ => raise TypeError
  end.

(** The key under which a call of a cached function is stored. *)
Definition cache_key (op : cached_operation) (args : list value)
  : option key :=
  build_key (registration_of op) args.

End Shakti.

(** ** The paths the episode functions ask for *)

Section EpisodePaths.
Context {collab : Collaborators}.



End EpisodePaths.

(** ** Frame conditions *)

Section FrameConditions.
Context {collab : Collaborators}.

(** [tidy K w w']: going from [w] to [w'] only remote calls were logged,
    nothing outside the memory tier changed, no memory entry was dropped or
    changed outside the keys [K], and every new memory entry was written now
    with the default TTL of its bucket. *)
Definition tidy (K : key -> Prop) (w w' : world) : Prop :=
  disk w' = disk w /\ last_location w' = last_location w /\
  now w' = now w /\ settings w' = settings w /\ service w' = service w /\
  (exists rqs, log w' = log w ++ map Called rqs) /\
  (forall k, ~ K k -> mem w' !! k = mem w !! k) /\
  (forall k e, mem w' !! k = Some e ->
     mem w !! k = Some e \/
     (K k /\ e_ttl e = default_ttl k.1 /\ e_created e = now w)).

End FrameConditions.

Definition root_lists_key : key := (CACHE_COMMON, VStr "root_lists").

(** A computation is blind to the disk tier when it neither reads nor
    writes it: run on another disk tier it has the same outcome and leaves
    the same world but for that tier. *)
Definition disk_blind {A} (m : M A) : Prop :=
  forall d w, m (set_disk d w) = (outcome m w, set_disk d (after m w)).

(** ** Concrete worlds *)

(** A stand-in for the absent collaborators: a LoLoMo's raw payload is a dict
    from list id to the fields of the list and [lists_by_context] keeps the
    lists whose [context] field is the one asked for; the seasons of a
    video's metadata are a dict from season id to a season whose [episodes]
    are a dict from episode id to episode, and [find_episode] returns the
    first episode with the id asked for and raises [KeyError] when no season
    has it. *)
Definition sample_lists_by_context (lolomo context : value)
  : list (value * value) :=
  match lolomo with
  | LoLoMo (VDict lists) =>
      omap (fun kv =>
              match py_getitem (snd kv) "context" with
              | Ok c => if bool_decide (c = context)
                        then Some (VStr (fst kv), VideoList (snd kv))
                        else None
              | Raise _ => None
              end) lists
  | _ => []
  end.

Definition sample_episode_in (episode_id : value) (season : value)
  : option value :=
  match py_getitem season "episodes", episode_id with
  | Ok (VDict all_episodes), VStr e => dict_lookup all_episodes e
  | _, _ => None
  end.

Definition sample_find_episode (episode_id all_seasons : value)
  : result value :=
  match all_seasons with
  | VDict ss =>
      match omap (fun kv => sample_episode_in episode_id (snd kv)) ss with
      | found :: _ => Ok found
      | [] => Raise KeyError
      end
  | _ => Raise TypeError
  end.





Definition sample : Collaborators := {|
  VIDEO_LIST_PARTIAL_PATHS := [[VStr "summary"]; [VStr "title"]];
  SEASONS_PARTIAL_PATHS := [[VStr "seasonList"]];
  EPISODES_PARTIAL_PATHS := [[VStr "summary"]];
  ART_PARTIAL_PATHS := [[VStr "boxarts"]];
  CACHE_METADATA_TTL := 86400;
  default_ttl := fun _ => Lasts 600;
  lists_by_context := sample_lists_by_context;
  find_episode := sample_find_episode;
|}.

(** A service that answers its n-th call with the n-th scripted answer and
    fails once the script is exhausted. *)
Definition scripted (answers : list (option value))
  : list request -> request -> option value :=
  fun history _ => mjoin (answers !! length history).

(** A freshly started add-on: empty tiers, a last location, time 0. *)
Definition start (answers : list (option value)) (full_wipe : bool) : world :=
  {| mem := ∅; disk := ∅; last_location := Some (VStr "home"); now := 0;
     settings := fun name =>
       if String.eqb name "invalidate_cache_on_mylist_modify"
       then full_wipe else false;
     service := scripted answers; log := [] |}.

(** Root lists with and without a list of context 'queue'. *)
Definition lolomo_with_queue : value :=
  VDict [("L1", VDict [("context", VStr "queue")]);
         ("L2", VDict [("context", VStr "continueWatching")])].

Definition lolomo_without_queue : value :=
  VDict [("L2", VDict [("context", VStr "continueWatching")])].

(** The root lists, the 'queue' id and the 'queue' video list are cached;
    the next remote call (the post) succeeds. *)
Definition my_list_cached : world :=
  after (video_list (collab := sample) (VStr "L1"))
    (after (list_id_for_type (collab := sample) (VStr "queue"))
       (start [Some lolomo_with_queue; Some (VDict []); Some (VDict [])]
          false)).

(** Nothing is cached; the post succeeds and the root lists that are then
    fetched hold no list of context 'queue'. *)
Definition my_list_unavailable : world :=
  start [Some (VDict []); Some lolomo_without_queue] false.

(** The 'queue' id was resolved at time 100 against root lists fetched at
    time 0; at time 650 those root lists have expired and were fetched
    again, now without a list of context 'queue', while the resolved id is
    still fresh. *)
Definition stale_queue_id : world :=
  after (root_lists (collab := sample))
    (set_now 650
       (after (list_id_for_type (collab := sample) (VStr "queue"))
          (set_now 100
             (after (root_lists (collab := sample))
                (start [Some lolomo_with_queue; Some lolomo_without_queue]
                   false))))).


(** Metadata of a show whose season S1 holds episode E1 only, and the same
    once episode E2 has come out. *)
Definition metadata_payload : value :=
  VDict [("video",
          VDict [("title", VStr "A show");
                 ("seasons",
                  VDict [("S1",
                          VDict [("episodes",
                                  VDict [("E1", VDict [("seq", VInt 1)])])])])])].

Definition metadata_payload_with_E2 : value :=
  VDict [("video",
          VDict [("title", VStr "A show");
                 ("seasons",
                  VDict [("S1",
                          VDict [("episodes",
                                  VDict [("E1", VDict [("seq", VInt 1)]);
                                         ("E2", VDict [("seq", VInt 2)])])])])])].

(** The metadata of show 70100 is cached; the service is then down, or
    answers with the metadata that has E2, or answers with a payload that
    has no 'video'. *)
Definition stale_metadata_offline : world :=
  after (metadata (collab := sample) (VStr "70100"))
    (start [Some metadata_payload] false).

Definition stale_metadata_refreshed : world :=
  after (metadata (collab := sample) (VStr "70100"))
    (start [Some metadata_payload; Some metadata_payload_with_E2] false).

Definition stale_metadata_error_payload : world :=
  after (metadata (collab := sample) (VStr "70100"))
    (start [Some metadata_payload; Some (VDict [("status", VStr "error")])]
       false).

(** * Properties *)

(** ** The log and the pure helpers *)

Lemma calls_of_app (l1 l2 : list event) :
  calls_of (l1 ++ l2) = calls_of l1 ++ calls_of l2.
Proof. unfold calls_of. apply omap_app. Qed.

Lemma calls_of_called (rqs : list request) : calls_of (map Called rqs) = rqs.
Proof. induction rqs as [| rq rqs IH]; simpl; [done | by rewrite IH]. Qed.

Lemma invalidations_of_app (l1 l2 : list event) :
  invalidations_of (l1 ++ l2) = invalidations_of l1 ++ invalidations_of l2.
Proof. unfold invalidations_of. apply List.filter_app. Qed.

Lemma invalidations_of_called (rqs : list request) :
  invalidations_of (map Called rqs) = [].
Proof. induction rqs as [| rq rqs IH]; [done | exact IH]. Qed.

(** [build_paths] either raises on the spot or returns its paths on the
    spot. *)
Lemma build_paths_run (base_path : list value)
    (partial_paths : list (list value)) (w : world) :
  build_paths base_path partial_paths w =
  if json_encodable
       (VList (map (fun partial_path => VList (base_path ++ partial_path))
                 partial_paths))
  then (Ok (map (fun partial_path => VList (base_path ++ partial_path))
              partial_paths), w)
  else (Raise TypeError, w).
Proof.
  unfold build_paths, bind, debug, ret, raise.
  by destruct (json_encodable _).
Qed.

(** Reads the invalidations off a log that is a concatenation. *)
Ltac read_log :=
  simpl;
  repeat (rewrite ?invalidations_of_app, ?invalidations_of_called; simpl);
  rewrite ?app_nil_r, <- ?app_assoc; simpl; try reflexivity.

Lemma py_get_Ok (v k dflt x : value) :
  py_get v k dflt = Ok x ->
  exists kvs, v = VDict kvs /\
    (x = dflt \/ exists s, k = VStr s /\ dict_lookup kvs s = Some x).
Proof.
  unfold py_get. destruct v as [| | | | kvs | | | |]; try discriminate.
  intros Hx. exists kvs. split; [done |].
  destruct k as [| | s | | | | | |]; try discriminate;
    try (injection Hx as <-; by left).
  destruct (dict_lookup kvs s) as [y |] eqn:E; simpl in Hx;
    injection Hx as <-; [right; by exists s | by left].
Qed.

Lemma py_get_empty (k x : value) :
  py_get (VDict []) k (VDict []) = Ok x -> x = VDict [].
Proof.
  intros Hx. apply py_get_Ok in Hx as (kvs & [= <-] & [-> | (s & _ & Hs)]);
    [done | discriminate Hs].
Qed.

Lemma get_episode_found_or_empty (video seasonid episodeid v : value) :
  get_episode video seasonid episodeid = Ok v ->
  v = VDict [] \/ episode_at video seasonid episodeid v.
Proof.
  unfold get_episode, episode_at.
  destruct (py_get video _ _) as [a1 |] eqn:E1; [| discriminate].
  destruct (py_get a1 _ _) as [a2 |] eqn:E2; [| discriminate].
  destruct (py_get a2 _ _) as [a3 |] eqn:E3; [| discriminate].
  intros E4.
  apply py_get_Ok in E1 as (kvs & -> & [-> | (? & [= <-] & H1)]).
  { apply py_get_empty in E2 as ->. apply py_get_empty in E3 as ->.
    apply py_get_empty in E4 as ->. by left. }
  apply py_get_Ok in E2 as (ss & -> & [-> | (s & -> & H2)]).
  { apply py_get_empty in E3 as ->. apply py_get_empty in E4 as ->.
    by left. }
  apply py_get_Ok in E3 as (fields & -> & [-> | (? & [= <-] & H3)]).
  { apply py_get_empty in E4 as ->. by left. }
  apply py_get_Ok in E4 as (es & -> & [-> | (e & -> & H4)]); [by left |].
  right. by exists kvs, ss, s, fields, es, e.
Qed.

(** ** What a cached function that stays in memory may change *)

Section Frames.
Context {collab : Collaborators}.

Lemma tidy_refl (K : key -> Prop) (w : world) : tidy K w w.
Proof.
  repeat split; auto. exists []. by rewrite app_nil_r.
Qed.

Lemma tidy_trans (K : key -> Prop) (w1 w2 w3 : world) :
  tidy K w1 w2 -> tidy K w2 w3 -> tidy K w1 w3.
Proof.
  intros (D1 & L1 & N1 & S1 & V1 & [r1 G1] & F1 & W1)
         (D2 & L2 & N2 & S2 & V2 & [r2 G2] & F2 & W2).
  repeat split; try congruence.
  - exists (r1 ++ r2). by rewrite G2, G1, map_app, app_assoc.
  - intros k Hk. by rewrite F2, F1.
  - intros k e Hke. destruct (W2 k e Hke) as [Hold | (HK & Ht & Hc)].
    + by apply W1.
    + right. repeat split; auto. congruence.
Qed.

Lemma tidy_weaken (K K' : key -> Prop) (w w' : world) :
  (forall k, K k -> K' k) -> tidy K w w' -> tidy K' w w'.
Proof.
  intros HK (D & L & N & S & V & G & F & W).
  repeat split; auto.
  intros k e Hke. destruct (W k e Hke) as [? | (? & ? & ?)]; auto.
Qed.

Lemma tidy_make_call (K : key -> Prop) func data (w : world) :
  tidy K w (after (make_call func data) w).
Proof.
  unfold after, make_call.
  destruct (service w _ _); simpl; repeat split; auto;
    by exists [{| rq_method := func; rq_data := data |}].
Qed.

(** A cached call that stays in memory and takes the default TTL is tidy
    when its producer is. *)
Lemma tidy_get_or_compute (K : key -> Prop) (b : bucket) (identifier : value)
    (producer : M value) (w : world) :
  K (b, identifier) ->
  tidy K w (after producer w) ->
  tidy K w (after (get_or_compute b (b, identifier) producer None false) w).
Proof.
  intros HK Hp. unfold after, get_or_compute in *.
  destruct (lookup_fresh (mem w) (b, identifier) (now w)); simpl.
  { apply tidy_refl. }
  destruct (producer w) as [[v | e] w']; simpl in *; [| done].
  destruct Hp as (D & L & N & S & V & G & F & W).
  unfold tidy; simpl. repeat split; auto.
  - intros k Hk. rewrite lookup_insert_ne; [by apply F |].
    intros <-. by apply Hk.
  - intros k e. destruct (decide (k = (b, identifier))) as [-> | Hne].
    + rewrite lookup_insert_eq. intros [= <-]. right. simpl. auto.
    + rewrite lookup_insert_ne by done. apply W.
Qed.

Lemma root_lists_tidy (w : world) :
  tidy (fun k => k = root_lists_key) w (after root_lists w).
Proof.
  unfold root_lists, cache_output. simpl.
  apply tidy_get_or_compute; [done |].
  unfold after, bind, debug, ret. simpl.
  pose proof (tidy_make_call (fun k => k = root_lists_key)
                (rq_method root_lists_request) (rq_data root_lists_request) w)
    as Hc.
  unfold after in Hc.
  by destruct (make_call _ _ w) as [[raw | e] w'].
Qed.

Lemma list_id_for_type_tidy (list_type : value) (w : world) :
  tidy (fun k => k = (CACHE_COMMON, list_type) \/ k = root_lists_key) w
    (after (list_id_for_type list_type) w).
Proof.
  unfold list_id_for_type, cache_output. simpl.
  apply tidy_get_or_compute; [by left |].
  assert (tidy (fun k => k = (CACHE_COMMON, list_type) \/ k = root_lists_key)
            w (after root_lists w)) as Hr.
  { eapply tidy_weaken; [| apply root_lists_tidy]. intros k Hk. by right. }
  unfold after, bind in *.
  destruct (root_lists w) as [[lolomo | e] w']; simpl in *; [| done].
  destruct lolomo; try done.
  by destruct (lists_by_context _ list_type) as [| [list_id vl] rest].
Qed.

End Frames.

(** ** Resolving a list id *)

Section Resolution.
Context {collab : Collaborators}.

Lemma lookup_fresh_Some (tier : gmap key entry) (k : key) (t : Z) (e : entry) :
  lookup_fresh tier k t = Some e -> tier !! k = Some e.
Proof.
  unfold lookup_fresh. destruct (tier !! k) as [e' |]; [| done].
  by destruct (fresh t e'); intros [= ->].
Qed.

(** [root_lists] fails only with the failure of its remote call, and when it
    returns the root lists are in the memory tier. *)
Lemma root_lists_result (w : world) :
  match outcome root_lists w with
  | Ok _ => is_Some (mem (after root_lists w) !! root_lists_key)
  | Raise e => e = CallFailed
  end.
Proof.
  unfold outcome, after, root_lists, cache_output, get_or_compute. simpl.
  destruct (lookup_fresh (mem w) _ (now w)) as [e |] eqn:E; simpl.
  { exists e. by apply lookup_fresh_Some in E. }
  unfold bind, debug, ret, make_call. simpl.
  destruct (service w _ _); simpl; [| done].
  unfold root_lists_key. rewrite lookup_insert_eq. by eexists.
Qed.

(** A call that its own entry does not answer runs the body. *)
Lemma list_id_for_type_miss (list_type : value) (w : world) :
  lookup_fresh (mem w) (CACHE_COMMON, list_type) (now w) = None ->
  outcome (list_id_for_type list_type) w =
  match outcome root_lists w with
  | Ok (LoLoMo raw) =>
      match lists_by_context (LoLoMo raw) list_type with
      | [] => Raise (InvalidVideoListTypeError list_type)
      | (list_id, _) :: _ => Ok list_id
      end
  | Ok _ => Raise AttributeError
  | Raise e => Raise e
  end.
Proof.
  intros Hmiss.
  unfold outcome, list_id_for_type, cache_output, get_or_compute. simpl.
  rewrite Hmiss. unfold bind.
  destruct (root_lists w) as [[lolomo | e] w1]; simpl; [| done].
  destruct lolomo; try done.
  by destruct (lists_by_context _ list_type) as [| [list_id vl] rest].
Qed.

(** A fresh entry of its own answers the call; the root lists are not
    looked at. *)
Lemma list_id_for_type_hit (list_type : value) (w : world) (e : entry) :
  lookup_fresh (mem w) (CACHE_COMMON, list_type) (now w) = Some e ->
  list_id_for_type list_type w = (Ok (e_value e), w).
Proof.
  intros Hhit.
  unfold list_id_for_type, cache_output, get_or_compute. simpl.
  by rewrite Hhit.
Qed.

(** When the resolution fails with the module's own error, the root lists
    it looked at stay in the memory tier. *)
Lemma list_id_for_type_unavailable (list_type x : value) (w : world) :
  outcome (list_id_for_type list_type) w = Raise (InvalidVideoListTypeError x) ->
  is_Some (mem (after (list_id_for_type list_type) w) !! root_lists_key).
Proof.
  unfold outcome, after, list_id_for_type, cache_output, get_or_compute.
  simpl.
  destruct (lookup_fresh (mem w) _ (now w)); simpl; [done |].
  pose proof (root_lists_result w) as Hr. unfold outcome, after, bind in *.
  destruct (root_lists w) as [[lolomo | e] w1]; simpl in *.
  - destruct lolomo; try done.
    by destruct (lists_by_context _ list_type) as [| [list_id vl] rest].
  - by intros [= ->].
Qed.



(** C4 (as amended): a call of [list_id_for_type] that finds a fresh cache
    entry of its own returns the value of that entry and does nothing else:
    the root lists are not looked at.  A call that finds none raises
    [InvalidVideoListTypeError] when the root lists (cached or refetched)
    hold no list of the context asked for, so it returns no identifier at
    all in that case, and returns the id of the first matching list when
    there is one. *)
Theorem list_id_for_type_resolution (list_type : value) (w : world) :
  match lookup_fresh (mem w) (CACHE_COMMON, list_type) (now w) with
  | Some e => list_id_for_type list_type w = (Ok (e_value e), w)
  | None =>
      forall raw,
        outcome root_lists w = Ok (LoLoMo raw) ->
        (lists_by_context (LoLoMo raw) list_type = [] ->
         outcome (list_id_for_type list_type) w =
           Raise (InvalidVideoListTypeError list_type)) /\
        (forall list_id video_list rest,
           lists_by_context (LoLoMo raw) list_type
             = (list_id, video_list) :: rest ->
           outcome (list_id_for_type list_type) w = Ok list_id)
  end.
Proof.
  destruct (lookup_fresh (mem w) (CACHE_COMMON, list_type) (now w))
    as [e |] eqn:Hown.
  - by apply list_id_for_type_hit.
  - intros raw Hroot. rewrite (list_id_for_type_miss _ _ Hown), Hroot.
    split.
    + by intros ->.
    + by intros list_id vl rest ->.
Qed.

End Resolution.

(** ** Modifying my list *)

Section MyList.
Context {collab : Collaborators} {fa : FloatArithmetic}.

(** [_update_my_list], path by path. *)
Lemma update_my_list_paths (video_id : value) (operation : string)
    (w : world) :
  _update_my_list video_id operation w =
  match py_int video_id with
  | Raise e => (Raise e, w)
  | Ok videoId =>
      let rq := update_my_list_request operation videoId in
      match service w (calls_of (log w)) rq with
      | None => (Raise CallFailed, record (Called rq) w)
      | Some _ =>
          if settings w full_wipe_flag then
            invalidate_cache (record (Called rq) w)
          else
            match list_id_for_type (VStr "queue")
                    (selective_start operation videoId w) with
            | (Ok list_id, w2) => purge list_id w2
            | (Raise e, w2) => (Raise e, w2)
            end
      end
  end.
Proof.
  unfold _update_my_list, bind, lift, make_call, getSettingBool,
    selective_start, full_wipe_flag.
  destruct (py_int video_id) as [videoId | e]; [| done]. simpl.
  destruct (service w _ _); [| done]. simpl.
  destruct (settings w _); [done |].
  by destruct (list_id_for_type _ _) as [[list_id | e] w2].
Qed.

Lemma purge_effect (list_id : value) (w : world) :
  outcome (purge list_id) w = Ok tt /\
  mem (after (purge list_id) w) =
    delete root_lists_key
      (delete (CACHE_COMMON, VStr "queue")
         (delete (CACHE_VIDEO_LIST, list_id) (mem w))) /\
  disk (after (purge list_id) w) =
    delete root_lists_key
      (delete (CACHE_COMMON, VStr "queue")
         (delete (CACHE_VIDEO_LIST, list_id) (disk w))) /\
  last_location (after (purge list_id) w) = last_location w /\
  log (after (purge list_id) w) =
    log w ++ [InvalidatedEntry CACHE_VIDEO_LIST list_id;
              InvalidatedEntry CACHE_COMMON (VStr "queue");
              InvalidatedEntry CACHE_COMMON (VStr "root_lists")].
Proof.
  unfold outcome, after, purge, bind, invalidate_entry. simpl.
  repeat split. by rewrite <- !app_assoc.
Qed.

(** Removing the two common entries hides whatever a tidy resolution of the
    'queue' list id wrote into them. *)
Lemma purge_after_resolution (list_id : value) (w w2 : world) :
  tidy (fun k => k = (CACHE_COMMON, VStr "queue") \/ k = root_lists_key)
    w w2 ->
  delete root_lists_key
    (delete (CACHE_COMMON, VStr "queue")
       (delete (CACHE_VIDEO_LIST, list_id) (mem w2))) =
  delete root_lists_key
    (delete (CACHE_COMMON, VStr "queue")
       (delete (CACHE_VIDEO_LIST, list_id) (mem w))).
Proof.
  intros (_ & _ & _ & _ & _ & _ & F & _).
  apply map_eq. intros k.
  destruct (decide (k = root_lists_key)) as [-> | N1].
  { by rewrite !lookup_delete_eq. }
  rewrite !(lookup_delete_ne _ root_lists_key) by done.
  destruct (decide (k = (CACHE_COMMON, VStr "queue"))) as [-> | N2].
  { by rewrite !lookup_delete_eq. }
  rewrite !(lookup_delete_ne _ (CACHE_COMMON, VStr "queue")) by done.
  destruct (decide (k = (CACHE_VIDEO_LIST, list_id))) as [-> | N3].
  { by rewrite !lookup_delete_eq. }
  rewrite !(lookup_delete_ne _ (CACHE_VIDEO_LIST, list_id)) by done.
  apply F. by intros [-> | ->].
Qed.

(** C1 (as amended): when the post of [_update_my_list] succeeds, a set flag
    makes the operation perform one full [invalidate_cache()]; otherwise,
    when the 'queue' list id resolves, it clears the last-location marker
    and removes exactly three entries from both tiers: the video-list entry
    of the resolved id and the two common-bucket entries 'queue' and
    'root_lists'.  Every other entry is what it was. *)
Theorem update_my_list_invalidation (video_id : value) (operation : string)
    (videoId : Z) (raw list_id : value) (w : world) :
  py_int video_id = Ok videoId ->
  service w (calls_of (log w)) (update_my_list_request operation videoId)
    = Some raw ->
  (settings w full_wipe_flag = true ->
   outcome (_update_my_list video_id operation) w = Ok tt /\
   mem (after (_update_my_list video_id operation) w) = ∅ /\
   disk (after (_update_my_list video_id operation) w) = ∅ /\
   invalidations_of (log (after (_update_my_list video_id operation) w))
     = invalidations_of (log w) ++ [InvalidatedCache]) /\
  (settings w full_wipe_flag = false ->
   outcome (list_id_for_type (VStr "queue"))
     (selective_start operation videoId w) = Ok list_id ->
   outcome (_update_my_list video_id operation) w = Ok tt /\
   mem (after (_update_my_list video_id operation) w) =
     delete (CACHE_COMMON, VStr "root_lists")
       (delete (CACHE_COMMON, VStr "queue")
          (delete (CACHE_VIDEO_LIST, list_id) (mem w))) /\
   disk (after (_update_my_list video_id operation) w) =
     delete (CACHE_COMMON, VStr "root_lists")
       (delete (CACHE_COMMON, VStr "queue")
          (delete (CACHE_VIDEO_LIST, list_id) (disk w))) /\
   last_location (after (_update_my_list video_id operation) w) = None /\
   invalidations_of (log (after (_update_my_list video_id operation) w))
     = invalidations_of (log w) ++
       [InvalidatedLastLocation;
        InvalidatedEntry CACHE_VIDEO_LIST list_id;
        InvalidatedEntry CACHE_COMMON (VStr "queue");
        InvalidatedEntry CACHE_COMMON (VStr "root_lists")]).
Proof.
  intros Hint Hpost. unfold outcome at 1 3, after.
  rewrite update_my_list_paths, Hint. simpl. rewrite Hpost.
  split; intros Hflag; rewrite Hflag.
  - unfold invalidate_cache. simpl. repeat split. by read_log.
  - intros Hres.
    pose proof (list_id_for_type_tidy (VStr "queue")
                  (selective_start operation videoId w)) as Ht.
    unfold outcome, after in Hres, Ht.
    destruct (list_id_for_type _ _) as [[l | e] w2]; simpl in Hres, Ht;
      [| done].
    injection Hres as ->.
    destruct (purge_effect list_id w2) as (Ho & Hm & Hd & Hl & Hg).
    unfold outcome, after in Ho, Hm, Hd, Hl, Hg.
    rewrite Ho, Hm, Hd, Hl, Hg.
    rewrite (purge_after_resolution list_id _ _ Ht).
    destruct Ht as (D & L & _ & _ & _ & [rqs G] & _ & _).
    rewrite D, L, G. repeat split. by read_log.
Qed.

(** C9: on the selective path the invalidations come in the order
    last-location marker, video-list entry of the 'queue' id, common
    'queue', common 'root_lists'.  When resolving the 'queue' id raises, the
    exception leaves [_update_my_list] although the post has been made: only
    the marker has been invalidated, the three entry invalidations are
    skipped, and after [InvalidVideoListTypeError] the root lists are still
    in the memory tier.  [add_to_list] and [remove_from_list] are this
    function. *)
Theorem update_my_list_selective_sequence (video_id : value)
    (operation : string) (videoId : Z) (raw : value) (w : world) :
  py_int video_id = Ok videoId ->
  service w (calls_of (log w)) (update_my_list_request operation videoId)
    = Some raw ->
  settings w full_wipe_flag = false ->
  match list_id_for_type (VStr "queue")
          (selective_start operation videoId w) with
  | (Ok list_id, _) =>
      outcome (_update_my_list video_id operation) w = Ok tt /\
      invalidations_of (log (after (_update_my_list video_id operation) w))
        = invalidations_of (log w) ++
          [InvalidatedLastLocation;
           InvalidatedEntry CACHE_VIDEO_LIST list_id;
           InvalidatedEntry CACHE_COMMON (VStr "queue");
           InvalidatedEntry CACHE_COMMON (VStr "root_lists")]
  | (Raise e, w2) =>
      _update_my_list video_id operation w = (Raise e, w2) /\
      In (Called (update_my_list_request operation videoId)) (log w2) /\
      invalidations_of (log w2)
        = invalidations_of (log w) ++ [InvalidatedLastLocation] /\
      (forall x, e = InvalidVideoListTypeError x ->
                 is_Some (mem w2 !! (CACHE_COMMON, VStr "root_lists")))
  end /\
  add_to_list video_id w = _update_my_list video_id "add" w /\
  remove_from_list video_id w = _update_my_list video_id "remove" w.
Proof.
  intros Hint Hpost Hflag. split; [| done].
  pose proof (list_id_for_type_tidy (VStr "queue")
                (selective_start operation videoId w)) as Ht.
  pose proof (fun x => list_id_for_type_unavailable (VStr "queue") x
                (selective_start operation videoId w)) as Hu.
  unfold outcome at 1, after at 1.
  rewrite update_my_list_paths, Hint. simpl. rewrite Hpost, Hflag.
  unfold outcome, after in Ht, Hu.
  destruct (list_id_for_type _ _) as [[list_id | e] w2]; simpl in Ht, Hu;
    destruct Ht as (_ & _ & _ & _ & _ & [rqs G] & _ & _).
  - destruct (purge_effect list_id w2) as (Ho & _ & _ & _ & Hg).
    unfold outcome, after in Ho, Hg. rewrite Ho, Hg, G. split; [done |].
    by read_log.
  - split; [done |]. rewrite G. simpl. repeat split.
    + rewrite <- !app_assoc. apply in_or_app. right. by left.
    + by read_log.
    + intros x ->. by apply (Hu x).
Qed.


(** [rate] posts and touches neither tier nor the marker. *)
Lemma rate_leaves_cache (video_id : value) (rating : pynum) (w : world) :
  log (after (rate video_id rating) w) =
    log w ++ [Called (rate_request video_id (netflix_rating rating))] /\
  mem (after (rate video_id rating) w) = mem w /\
  disk (after (rate video_id rating) w) = disk w /\
  last_location (after (rate video_id rating) w) = last_location w.
Proof.
  unfold after, rate, bind, debug, ret, make_call. simpl.
  by destruct (service w _ _).
Qed.

End MyList.

(** ** Episode metadata *)

Section EpisodeMetadata.
Context {collab : Collaborators}.

(** Right after its entry has been invalidated, [metadata] goes to the
    service: one remote call, whose payload's 'video' is the result. *)
Lemma metadata_after_invalidation (video_id : value) (w : world) :
  let w0 := after (invalidate_entry CACHE_METADATA video_id) w in
  log (after (metadata video_id) w0) =
    log w ++ [InvalidatedEntry CACHE_METADATA video_id;
              Called (metadata_request video_id)] /\
  outcome (metadata video_id) w0 =
    match service w (calls_of (log w)) (metadata_request video_id) with
    | None => Raise CallFailed
    | Some response => py_getitem response "video"
    end.
Proof.
  unfold outcome, after, metadata, cache_output, get_or_compute,
    invalidate_entry, lookup_fresh. simpl.
  rewrite !lookup_delete_eq.
  unfold bind, debug, ret, make_call, lift. simpl.
  rewrite calls_of_app, app_nil_r.
  destruct (service w _ _) as [response |]; simpl.
  - destruct (py_getitem response "video"); simpl; by rewrite <- app_assoc.
  - by rewrite <- app_assoc.
Qed.

(** C2 (as amended): for every call of [episode_metadata], when the lookup
    in the cached aggregate raises [KeyError] the entry of the aggregate is
    invalidated and the aggregate is refetched by exactly one remote call;
    the result is then what the refetch gives: its failure, the [KeyError]
    of a payload without 'video', an [AttributeError] when a level that is
    read is no dict, and otherwise the episode found at
    seasons/seasonid/episodes/episodeid or an empty dict.  When the lookup
    does anything else its outcome is the outcome of the call and no
    recovery is run.  The recovery is a straight line, so it runs at most
    once. *)
Theorem episode_metadata_recovers_once (tvshowid seasonid episodeid : value)
    (w : world) :
  match episode_metadata_lookup tvshowid episodeid w with
  | (Raise KeyError, w1) =>
      log (after (episode_metadata tvshowid seasonid episodeid) w) =
        log w1 ++ [InvalidatedEntry CACHE_METADATA tvshowid;
                   Called (metadata_request tvshowid)] /\
      outcome (episode_metadata tvshowid seasonid episodeid) w =
        match service w1 (calls_of (log w1)) (metadata_request tvshowid) with
        | None => Raise CallFailed
        | Some response =>
            match py_getitem response "video" with
            | Ok video => get_episode video seasonid episodeid
            | Raise e => Raise e
            end
        end /\
      (forall v,
         outcome (episode_metadata tvshowid seasonid episodeid) w = Ok v ->
         v = VDict [] \/
         exists response video,
           service w1 (calls_of (log w1)) (metadata_request tvshowid)
             = Some response /\
           py_getitem response "video" = Ok video /\
           episode_at video seasonid episodeid v)
  | other => episode_metadata tvshowid seasonid episodeid w = other
  end.
Proof.
  unfold outcome, after, episode_metadata, try_except.
  destruct (episode_metadata_lookup tvshowid episodeid w) as [[v | e] w1];
    [done |].
  destruct e; try done. simpl.
  destruct (metadata_after_invalidation tvshowid w1) as [Hlog Hout].
  unfold outcome, after in Hlog, Hout. simpl in Hlog, Hout.
  unfold episode_metadata_recovery, bind, lift.
  change (invalidate_entry CACHE_METADATA tvshowid w1)
    with (Ok tt, (invalidate_entry CACHE_METADATA tvshowid w1).2).
  simpl.
  destruct (metadata tvshowid _) as [[video | e] w2]; simpl in *.
  - rewrite Hlog. split; [done |].
    destruct (service w1 _ _) as [response |]; [| done].
    rewrite <- Hout. split; [done |].
    intros v Hv. apply get_episode_found_or_empty in Hv as [-> | Hv];
      [by left |].
    right. by exists response, video.
  - rewrite Hlog. split; [done |].
    destruct (service w1 _ _) as [response |].
    + rewrite <- Hout. split; [done | done].
    + by rewrite Hout.
Qed.

End EpisodeMetadata.

(** ** Keys, TTLs and tiers of the cached functions *)

Section CachedCalls.
Context {collab : Collaborators}.

(** A cached call that returns leaves its value under its key in the memory
    tier. *)
Lemma cache_output_stores (reg : registration) (args : list value)
    (producer : M value) (k : key) (v : value) (w : world) :
  build_key reg args = Some k ->
  outcome (cache_output reg args producer) w = Ok v ->
  exists e, mem (after (cache_output reg args producer) w) !! k = Some e /\
            e_value e = v.
Proof.
  intros Hk. unfold outcome, after, cache_output, get_or_compute.
  rewrite Hk.
  destruct (lookup_fresh (mem w) k (now w)) as [e |] eqn:E; simpl.
  { intros [= <-]. exists e. by apply lookup_fresh_Some in E. }
  destruct (reg_to_disk reg); simpl.
  - destruct (lookup_fresh (disk w) k (now w)) as [e |]; simpl.
    { intros [= <-]. exists e. by rewrite lookup_insert_eq. }
    destruct (producer w) as [[v' | x] w']; simpl; [| done].
    intros [= <-]. eexists. by rewrite lookup_insert_eq.
  - destruct (producer w) as [[v' | x] w']; simpl; [| done].
    intros [= <-]. eexists. by rewrite lookup_insert_eq.
Qed.

(** A fresh entry in the memory tier answers the call, whatever the
    producer and the other arguments are. *)
Lemma cache_output_hit (reg : registration) (args : list value)
    (producer : M value) (k : key) (e : entry) (w : world) :
  build_key reg args = Some k ->
  mem w !! k = Some e -> fresh (now w) e = true ->
  cache_output reg args producer w = (Ok (e_value e), w).
Proof.
  intros Hk He Hf. unfold cache_output, get_or_compute, lookup_fresh.
  by rewrite Hk, He, Hf.
Qed.

(** The list of cached functions is complete, and every registration that
    designates a parameter names the parameter that stands at the declared
    position, so selecting by position and selecting by name agree. *)
Lemma all_cached_operations_complete (op : cached_operation) :
  op ∈ all_cached_operations.
Proof. destruct op; unfold all_cached_operations; set_solver. Qed.

Lemma designated_name_is_parameter (op : cached_operation) (i : nat)
    (name : string) :
  reg_param (registration_of op) = Some (i, name) ->
  parameters_of op !! i = Some name.
Proof. destruct op; simpl; intros [= <- <-]; reflexivity. Qed.

(** C5: the key of a call of a cached function is a function of the
    registration and the bound arguments alone (no world enters it), and two
    argument lists that agree on the designated argument get the same key.
    For [episodes], registered on position 1, the key is the episodes
    bucket with the season id: calls with the same season id and different
    show ids share it, and the second is answered with what the first
    stored as long as that entry is fresh. *)
Theorem cache_key_of_designated_argument :
  (forall op args1 args2,
     designated_argument (registration_of op) args1
       = designated_argument (registration_of op) args2 ->
     cache_key op args1 = cache_key op args2) /\
  (forall tvshow_id1 tvshow_id2 season_id,
     cache_key op_episodes [tvshow_id1; season_id]
       = Some (CACHE_EPISODES, season_id) /\
     cache_key op_episodes [tvshow_id2; season_id]
       = Some (CACHE_EPISODES, season_id)) /\
  (forall tvshow_id1 tvshow_id2 season_id w v,
     outcome (episodes tvshow_id1 season_id) w = Ok v ->
     exists e,
       mem (after (episodes tvshow_id1 season_id) w)
         !! (CACHE_EPISODES, season_id) = Some e /\
       e_value e = v /\
       (fresh (now (after (episodes tvshow_id1 season_id) w)) e = true ->
        episodes tvshow_id2 season_id (after (episodes tvshow_id1 season_id) w)
          = (Ok v, after (episodes tvshow_id1 season_id) w))).
Proof.
  split; [| split].
  - intros op args1 args2 Hd. unfold cache_key, build_key. by rewrite Hd.
  - done.
  - intros t1 t2 s w v Hv.
    destruct (cache_output_stores (registration_of op_episodes) [t1; s] _
                (CACHE_EPISODES, s) v w eq_refl Hv) as (e & He & Hev).
    exists e. repeat split; [exact He | exact Hev |].
    intros Hf. rewrite <- Hev.
    by apply (cache_output_hit (registration_of op_episodes) [t2; s] _
                (CACHE_EPISODES, s)).
Qed.


Lemma disk_blind_ret {A} (a : A) : disk_blind (ret a).
Proof. by intros d w. Qed.

Lemma disk_blind_raise {A} (e : exn) : disk_blind (@raise A e).
Proof. by intros d w. Qed.

Lemma disk_blind_bind {A B} (m : M A) (k : A -> M B) :
  disk_blind m -> (forall a, disk_blind (k a)) -> disk_blind (bind m k).
Proof.
  intros Hm Hk d w. unfold outcome, after, bind. rewrite Hm.
  unfold outcome, after. destruct (m w) as [[a | e] w1]; simpl; [| done].
  by rewrite Hk.
Qed.

Lemma disk_blind_make_call func data : disk_blind (make_call func data).
Proof.
  intros d w. unfold outcome, after, make_call. simpl.
  by destruct (service w _ _).
Qed.

Lemma disk_blind_build_paths base_path partial_paths :
  disk_blind (build_paths base_path partial_paths).
Proof.
  intros d w. unfold outcome, after. rewrite !build_paths_run.
  by destruct (json_encodable _).
Qed.

Lemma disk_blind_get_or_compute (b : bucket) (k : key) (producer : M value) :
  disk_blind producer ->
  disk_blind (get_or_compute b k producer None false).
Proof.
  intros Hp d w. unfold outcome, after, get_or_compute. simpl.
  destruct (lookup_fresh (mem w) k (now w)); [done |].
  rewrite Hp. unfold outcome, after.
  by destruct (producer w) as [[v | e] w1].
Qed.

Lemma root_lists_disk_blind : disk_blind root_lists.
Proof.
  apply disk_blind_get_or_compute, disk_blind_bind; [done |]. intros _.
  apply disk_blind_bind; [apply disk_blind_make_call | done].
Qed.

Lemma list_id_for_type_disk_blind (list_type : value) :
  disk_blind (list_id_for_type list_type).
Proof.
  apply disk_blind_get_or_compute, disk_blind_bind;
    [apply root_lists_disk_blind |].
  intros lolomo. destruct lolomo; try apply disk_blind_raise.
  destruct (lists_by_context _ list_type) as [| [list_id vl] rest];
    [apply disk_blind_raise |].
  by apply disk_blind_bind.
Qed.

(** The producers of the plain fetches: some local steps, then one remote
    call. *)
Ltac blind_fetch :=
  repeat first
    [ apply disk_blind_make_call
    | apply disk_blind_build_paths
    | apply disk_blind_ret
    | apply disk_blind_bind; [| intros ? ]
    | done ].

Lemma call_disk_blind (op : cached_operation) (args : list value) :
  op <> op_metadata -> disk_blind (call op args).
Proof.
  intros Hop.
  destruct op; try done;
    destruct args as [| a [| b [| c rest]]]; try apply disk_blind_raise;
    simpl;
    try apply root_lists_disk_blind; try apply list_id_for_type_disk_blind;
    apply disk_blind_get_or_compute; blind_fetch.
Qed.

Ltac tidy_fetch w :=
  unfold after, bind, debug, ret; simpl;
  repeat (rewrite build_paths_run;
          destruct (json_encodable _); simpl; [| by apply tidy_refl]);
  lazymatch goal with
  | |- tidy ?K _ _ =>
      lazymatch goal with
      | |- context [make_call ?func ?data w] =>
          let Hc := fresh in
          pose proof (tidy_make_call K func data w) as Hc;
          unfold after in Hc;
          destruct (make_call func data w) as [[? | ?] ?]; exact Hc
      end
  end.

Lemma call_tidy (op : cached_operation) (args : list value) (w : world) :
  op <> op_metadata ->
  tidy (fun k => cache_key op args = Some k \/ k = root_lists_key) w
    (after (call op args) w).
Proof.
  intros Hop.
  destruct op; try done;
    destruct args as [| a [| b [| c rest]]]; try apply tidy_refl; simpl.
  - eapply tidy_weaken; [| apply root_lists_tidy]. intros k ->. by right.
  - eapply tidy_weaken; [| apply list_id_for_type_tidy].
    intros k [-> | ->]; [by left | by right].
  - apply tidy_get_or_compute; [by left | tidy_fetch w].
  - apply tidy_get_or_compute; [by left | tidy_fetch w].
  - apply tidy_get_or_compute; [by left | tidy_fetch w].
  - apply tidy_get_or_compute; [by left | tidy_fetch w].
  - apply tidy_get_or_compute; [by left | tidy_fetch w].
Qed.

(** C7: of the eight cached functions only [metadata] is registered with a
    TTL of its own and with the disk flag.  Every other one is blind to the
    disk tier, and whatever entry it writes to memory carries the default
    TTL of its bucket.  A [metadata] call that misses both tiers and
    succeeds writes its entry, with the TTL of its registration, to both
    tiers, and a fresh disk entry answers it without the service. *)
Theorem only_metadata_overrides_ttl_and_uses_disk :
  (forall op,
     reg_ttl (registration_of op) =
       (if decide (op = op_metadata) then Some CACHE_METADATA_TTL else None)
     /\
     reg_to_disk (registration_of op) = bool_decide (op = op_metadata) /\
     effective_ttl (reg_bucket (registration_of op))
       (reg_ttl (registration_of op)) =
       (if decide (op = op_metadata) then Lasts CACHE_METADATA_TTL
        else default_ttl (reg_bucket (registration_of op)))) /\
  (forall op args w,
     op <> op_metadata ->
     disk_blind (call op args) /\
     disk (after (call op args) w) = disk w /\
     forall k e,
       mem (after (call op args) w) !! k = Some e ->
       mem w !! k = Some e \/
       (e_ttl e = default_ttl k.1 /\ e_created e = now w)) /\
  (forall video_id w,
     lookup_fresh (mem w) (CACHE_METADATA, video_id) (now w) = None ->
     (forall v,
        lookup_fresh (disk w) (CACHE_METADATA, video_id) (now w) = None ->
        outcome (metadata video_id) w = Ok v ->
        let e := {| e_value := v; e_created := now w;
                    e_ttl := Lasts CACHE_METADATA_TTL |} in
        mem (after (metadata video_id) w) !! (CACHE_METADATA, video_id)
          = Some e /\
        disk (after (metadata video_id) w) !! (CACHE_METADATA, video_id)
          = Some e) /\
     (forall e,
        lookup_fresh (disk w) (CACHE_METADATA, video_id) (now w) = Some e ->
        metadata video_id w =
          (Ok (e_value e),
           set_mem (<[(CACHE_METADATA, video_id) := e]> (mem w)) w))).
Proof.
  split; [| split].
  - intros op. by destruct op.
  - intros op args w Hop. split; [by apply call_disk_blind |].
    destruct (call_tidy op args w Hop) as (D & _ & _ & _ & _ & _ & _ & W).
    split; [exact D |].
    intros k e Hke. destruct (W k e Hke) as [? | (_ & ? & ?)]; auto.
  - intros video_id w Hmem. split.
    + intros v Hdisk.
      unfold outcome, after, metadata, cache_output, get_or_compute. simpl.
      rewrite Hmem, Hdisk.
      unfold bind, debug, ret, make_call, lift. simpl.
      destruct (service w _ _) as [response |]; simpl; [| done].
      destruct (py_getitem response "video"); simpl; [| done].
      intros [= <-]. by rewrite !lookup_insert_eq.
    + intros e Hdisk.
      unfold metadata, cache_output, get_or_compute. simpl.
      by rewrite Hmem, Hdisk.
Qed.

End CachedCalls.

(** ** Rating *)

Section Rating.
Context {collab : Collaborators} {fa : FloatArithmetic}.

Lemma py_lt_int (a b : Z) : py_lt (PInt a) (PInt b) = (a <? b)%Z.
Proof.
  unfold py_lt, py_to_Q, Qcompare, Z.ltb. simpl. by rewrite !Z.mul_1_r.
Qed.

Lemma py_lt_finite (a b : pynum) (x y : Q) :
  py_finite a = Some x -> py_finite b = Some y ->
  if py_lt a b then (x < y)%Q else (y <= x)%Q.
Proof.
  intros Ha Hb.
  assert (py_lt a b = match Qcompare x y with Lt => true | _ => false end)
    as ->.
  { unfold py_lt, py_to_Q. rewrite Ha, Hb.
    destruct a; try discriminate; destruct b; try discriminate; done. }
  destruct (Qcompare x y) eqn:E.
  - apply Qeq_alt in E. rewrite E. apply Qle_refl.
  - by apply Qlt_alt.
  - apply Qgt_alt in E. by apply Qlt_le_weak.
Qed.

Lemma netflix_rating_int (z : Z) :
  netflix_rating (PInt z) = PInt (Z.min 10 (Z.max 0 z) / 2).
Proof.
  unfold netflix_rating, py_max, py_min, py_halve. rewrite py_lt_int.
  destruct (Z.ltb_spec 0 z).
  - rewrite py_lt_int. destruct (Z.ltb_spec z 10); simpl; f_equal; f_equal; lia.
  - rewrite py_lt_int. simpl. f_equal. f_equal. lia.
Qed.

(** What is left of a rating after [min(10, max(0, rating))]: an int between
    0 and 10, or the rating itself when it is a float strictly between 0
    and 10.  An infinity and NaN do not survive. *)
Lemma clamped_rating (rating : pynum) :
  (exists z, py_min (PInt 10) (py_max (PInt 0) rating) = PInt z /\
             (0 <= z <= 10)%Z /\
             (forall q, rating = PFloat q ->
                        (z = 0%Z /\ (q <= 0)%Q) \/ (z = 10%Z /\ (10 <= q)%Q)))
  \/
  (exists q, rating = PFloat q /\
             py_min (PInt 10) (py_max (PInt 0) rating) = PFloat q /\
             (0 < q)%Q /\ (q < 10)%Q).
Proof.
  destruct rating as [z | q | [|] |]; unfold py_max, py_min.
  - left. rewrite py_lt_int. destruct (Z.ltb_spec 0 z).
    + rewrite py_lt_int. destruct (Z.ltb_spec z 10);
        eexists; (split; [reflexivity |]); (split; [lia | discriminate]).
    + rewrite py_lt_int. simpl. exists 0%Z.
      split; [reflexivity |]. split; [lia | discriminate].
  - pose proof (py_lt_finite (PInt 0) (PFloat q) _ _ eq_refl eq_refl) as H0.
    destruct (py_lt (PInt 0) (PFloat q)).
    + pose proof (py_lt_finite (PFloat q) (PInt 10) _ _ eq_refl eq_refl)
        as H10.
      destruct (py_lt (PFloat q) (PInt 10)).
      * right. by exists q.
      * left. exists 10%Z. split; [reflexivity |]. split; [lia |].
        intros ? [= <-]. by right.
    + left. rewrite py_lt_int. simpl. exists 0%Z.
      split; [reflexivity |]. split; [lia |].
      intros ? [= <-]. by left.
  - left. simpl. exists 0%Z. split; [reflexivity |].
    split; [lia | discriminate].
  - left. simpl. exists 10%Z. split; [reflexivity |].
    split; [lia | discriminate].
  - left. simpl. exists 0%Z. split; [reflexivity |].
    split; [lia | discriminate].
Qed.

Lemma float_round_0 : (float_round 0 == 0)%Q.
Proof. apply (float_round_int 0). vm_compute. congruence. Qed.

Lemma float_round_5 : (float_round 5 == 5)%Q.
Proof. apply (float_round_int 5). vm_compute. congruence. Qed.

Lemma rounded_half_in_range (q : Q) :
  (0 <= q)%Q -> (q <= 10)%Q -> (0 <= float_round (q / 2) <= 5)%Q.
Proof.
  intros H0 H10.
  assert (0 <= q / 2)%Q as L
    by (unfold Qdiv; change (/ 2)%Q with (1 # 2)%Q; lra).
  assert (q / 2 <= 5)%Q as U
    by (unfold Qdiv; change (/ 2)%Q with (1 # 2)%Q; lra).
  split.
  - apply Qle_trans with (float_round 0).
    + rewrite float_round_0. apply Qle_refl.
    + by apply float_round_le.
  - apply Qle_trans with (float_round 5).
    + by apply float_round_le.
    + rewrite float_round_5. apply Qle_refl.
Qed.

(** C10: the post of [rate] carries, as the rating of its params,
    [min(10, max(0, rating)) / 2], a finite number between 0 and 5.  On an
    int the division is Python 2's floor division of ints, so the rating
    sent is the int [min(10, max(0, r)) // 2] and no half step arises; on a
    finite float it is the float nearest to half the clamped value. *)
Theorem rate_sends_halved_clamped_rating :
  (forall video_id rating w,
     exists sent q,
       log (after (rate video_id rating) w) =
         log w ++
         [Called {| rq_method := NetflixSession_post;
                    rq_data :=
                      VDict [("component", VStr "set_video_rating");
                             ("headers", json_headers);
                             ("params", VDict [("titleid", video_id);
                                               ("rating", VNum sent)])] |}]
       /\
       sent = py_halve (py_min (PInt 10) (py_max (PInt 0) rating)) /\
       py_finite sent = Some q /\ (0 <= q <= 5)%Q) /\
  (forall video_id (z : Z) w,
     log (after (rate video_id (PInt z)) w) =
       log w ++
       [Called {| rq_method := NetflixSession_post;
                  rq_data :=
                    VDict [("component", VStr "set_video_rating");
                           ("headers", json_headers);
                           ("params",
                            VDict [("titleid", video_id);
                                   ("rating",
                                    VNum (PInt (Z.min 10 (Z.max 0 z) / 2)))])]
               |}] /\
     (2 * (Z.min 10 (Z.max 0 z) / 2) <= Z.min 10 (Z.max 0 z)
      < 2 * (Z.min 10 (Z.max 0 z) / 2) + 2)%Z) /\
  (forall q : Q,
     exists x,
       py_finite (py_halve (py_min (PInt 10) (py_max (PInt 0) (PFloat q))))
         = Some x /\
       (x == float_round (Qmin 10 (Qmax 0 q) / 2))%Q).
Proof.
  split; [| split].
  - intros video_id rating w.
    exists (py_halve (py_min (PInt 10) (py_max (PInt 0) rating))).
    assert (exists q,
              py_finite (py_halve (py_min (PInt 10)
                                     (py_max (PInt 0) rating))) = Some q /\
              (0 <= q <= 5)%Q) as (q & Hq & Hrange).
    { destruct (clamped_rating rating)
        as [(z & -> & Hz & _) | (q & _ & -> & H0 & H10)]; simpl.
      - eexists. split; [reflexivity |]. split.
        + change (inject_Z 0 <= inject_Z (z / 2))%Q.
          rewrite <- Zle_Qle. apply Z.div_pos; lia.
        + change (inject_Z (z / 2) <= inject_Z 5)%Q.
          rewrite <- Zle_Qle. apply Z.div_le_upper_bound; lia.
      - eexists. split; [reflexivity |].
        apply rounded_half_in_range; by apply Qlt_le_weak. }
    exists q. split; [| by split].
    unfold after, rate, bind, debug, ret, make_call, netflix_rating. simpl.
    by destruct (service w _ _).
  - intros video_id z w. split.
    + unfold after, rate, bind, debug, ret, make_call. simpl.
      rewrite netflix_rating_int. by destruct (service w _ _).
    + pose proof (Z.div_mod (Z.min 10 (Z.max 0 z)) 2 ltac:(lia)).
      pose proof (Z.mod_pos_bound (Z.min 10 (Z.max 0 z)) 2 ltac:(lia)).
      lia.
  - intros q.
    destruct (clamped_rating (PFloat q))
      as [(z & -> & _ & Hz) | (q' & [= <-] & -> & H0 & H10)]; simpl.
    + eexists. split; [reflexivity |].
      destruct (Hz q eq_refl) as [[-> Hq] | [-> Hq]].
      * change (inject_Z (0 / 2)) with 0%Q.
        transitivity (float_round 0); [symmetry; apply float_round_0 |].
        apply float_round_proper.
        rewrite (Q.max_l 0 q) by done. rewrite (Q.min_r 10 0) by done.
        reflexivity.
      * change (inject_Z (10 / 2)) with 5%Q.
        transitivity (float_round 5); [symmetry; apply float_round_5 |].
        apply float_round_proper.
        rewrite (Q.max_r 0 q) by (apply Qle_trans with 10%Q; done).
        rewrite (Q.min_l 10 q) by done. reflexivity.
    + eexists. split; [reflexivity |]. apply float_round_proper.
      rewrite (Q.max_r 0 q) by by apply Qlt_le_weak.
      rewrite (Q.min_r 10 q) by by apply Qlt_le_weak. reflexivity.
Qed.

End Rating.

(** ** The theorems at concrete worlds *)

(** With the root lists, the 'queue' id L1 and the video list L1 cached,
    adding a title removes these three entries and nothing else. *)
Lemma update_my_list_invalidation_witness :
  outcome (_update_my_list (collab := sample) (VStr "80100172") "add")
    my_list_cached = Ok tt /\
  mem (after (_update_my_list (collab := sample) (VStr "80100172") "add")
         my_list_cached) =
    delete (CACHE_COMMON, VStr "root_lists")
      (delete (CACHE_COMMON, VStr "queue")
         (delete (CACHE_VIDEO_LIST, VStr "L1") (mem my_list_cached))).
Proof.
  destruct (update_my_list_invalidation (collab := sample)
              (VStr "80100172") "add" 80100172 (VDict []) (VStr "L1")
              my_list_cached) as [_ Hsel].
  - vm_compute. reflexivity.
  - vm_compute. reflexivity.
  - destruct Hsel as (Ho & Hm & _).
    + vm_compute. reflexivity.
    + vm_compute. reflexivity.
    + split; [exact Ho | exact Hm].
Defined.

(** C1, as stated, fails: on the selective path two entries of the common
    bucket are removed, 'queue' and 'root_lists', so no single common-bucket
    entry together with one video-list entry accounts for what changed. *)
Lemma update_my_list_removes_two_common_entries :
  settings my_list_cached full_wipe_flag = false /\
  outcome (_update_my_list (collab := sample) (VStr "80100172") "add")
    my_list_cached = Ok tt /\
  ~ exists list_id summary : value,
      forall k : key,
        k <> (CACHE_VIDEO_LIST, list_id) ->
        k <> (CACHE_COMMON, summary) ->
        mem (after (_update_my_list (collab := sample) (VStr "80100172")
                      "add") my_list_cached) !! k
          = mem my_list_cached !! k.
Proof.
  split; [reflexivity |]. split; [vm_compute; reflexivity |].
  intros (list_id & summary & Hk).
  assert (is_Some (mem my_list_cached !! (CACHE_COMMON, VStr "queue")))
    as [e1 E1] by (vm_compute; eauto).
  assert (is_Some (mem my_list_cached !! (CACHE_COMMON, VStr "root_lists")))
    as [e2 E2] by (vm_compute; eauto).
  assert (mem (after (_update_my_list (collab := sample) (VStr "80100172")
                        "add") my_list_cached)
            !! (CACHE_COMMON, VStr "queue") = None) as N1
    by (vm_compute; reflexivity).
  assert (mem (after (_update_my_list (collab := sample) (VStr "80100172")
                        "add") my_list_cached)
            !! (CACHE_COMMON, VStr "root_lists") = None) as N2
    by (vm_compute; reflexivity).
  destruct (decide (summary = VStr "queue")) as [-> | Hs].
  - specialize (Hk (CACHE_COMMON, VStr "root_lists")).
    rewrite N2, E2 in Hk. by discriminate Hk.
  - specialize (Hk (CACHE_COMMON, VStr "queue")).
    rewrite N1, E1 in Hk. discriminate Hk; [done | congruence].
Qed.

(** With nothing cached and root lists that hold no 'queue' list, adding a
    title posts, clears the marker, fetches the root lists and then fails
    with [InvalidVideoListTypeError]; the fetched root lists stay cached. *)
Lemma update_my_list_selective_sequence_witness :
  outcome (_update_my_list (collab := sample) (VStr "80100172") "add")
    my_list_unavailable = Raise (InvalidVideoListTypeError (VStr "queue")) /\
  invalidations_of
    (log (after (_update_my_list (collab := sample) (VStr "80100172") "add")
            my_list_unavailable)) = [InvalidatedLastLocation] /\
  is_Some (mem (after (_update_my_list (collab := sample) (VStr "80100172")
                         "add") my_list_unavailable)
             !! (CACHE_COMMON, VStr "root_lists")).
Proof.
  destruct (update_my_list_selective_sequence (collab := sample)
              (VStr "80100172") "add" 80100172 (VDict [])
              my_list_unavailable) as [Hseq _].
  - vm_compute. reflexivity.
  - vm_compute. reflexivity.
  - vm_compute. reflexivity.
  - assert (outcome (list_id_for_type (collab := sample) (VStr "queue"))
              (selective_start "add" 80100172 my_list_unavailable)
            = Raise (InvalidVideoListTypeError (VStr "queue"))) as Hfail
      by (vm_compute; reflexivity).
    unfold outcome, after in *.
    destruct (list_id_for_type (VStr "queue") _) as [[list_id | e] w2];
      simpl in Hfail; [discriminate Hfail |].
    injection Hfail as ->.
    destruct Hseq as (Hrun & _ & Hinv & Hroot).
    rewrite Hrun. simpl. repeat split; [exact Hinv |].
    by apply (Hroot (VStr "queue")).
Defined.


(** On a cold cache the resolution raises when the root lists hold no list
    of the context, and returns the id of the matching list when they do;
    with the resolved id still cached it answers L1 although the root lists
    no longer hold a 'queue' list. *)
Lemma list_id_for_type_resolution_witness :
  outcome (list_id_for_type (collab := sample) (VStr "queue"))
    (start [Some lolomo_without_queue] false)
    = Raise (InvalidVideoListTypeError (VStr "queue")) /\
  outcome (list_id_for_type (collab := sample) (VStr "queue"))
    (start [Some lolomo_with_queue] false) = Ok (VStr "L1") /\
  list_id_for_type (collab := sample) (VStr "queue") stale_queue_id
    = (Ok (VStr "L1"), stale_queue_id).
Proof.
  split; [| split].
  - pose proof (list_id_for_type_resolution (collab := sample) (VStr "queue")
                  (start [Some lolomo_without_queue] false)) as Hres.
    change (lookup_fresh _ _ _) with (@None entry) in Hres.
    apply (Hres lolomo_without_queue); vm_compute; reflexivity.
  - pose proof (list_id_for_type_resolution (collab := sample) (VStr "queue")
                  (start [Some lolomo_with_queue] false)) as Hres.
    change (lookup_fresh _ _ _) with (@None entry) in Hres.
    apply (Hres lolomo_with_queue)
      with (video_list := VideoList (VDict [("context", VStr "queue")]))
           (rest := []);
      vm_compute; reflexivity.
  - pose proof (list_id_for_type_resolution (collab := sample) (VStr "queue")
                  stale_queue_id) as Hres.
    assert (lookup_fresh (mem stale_queue_id) (CACHE_COMMON, VStr "queue")
              (now stale_queue_id)
            = Some {| e_value := VStr "L1"; e_created := 100;
                      e_ttl := Lasts 600 |}) as Hown
      by (vm_compute; reflexivity).
    rewrite Hown in Hres. exact Hres.
Defined.

(** C4, as stated, fails: the root lists hold no list of context 'queue',
    yet the call returns the id it resolved earlier and still has cached. *)
Lemma list_id_for_type_answers_from_its_own_entry :
  outcome (root_lists (collab := sample)) stale_queue_id
    = Ok (LoLoMo lolomo_without_queue) /\
  lists_by_context (Collaborators := sample) (LoLoMo lolomo_without_queue)
    (VStr "queue") = [] /\
  outcome (list_id_for_type (collab := sample) (VStr "queue")) stale_queue_id
    = Ok (VStr "L1").
Proof. repeat split; vm_compute; reflexivity. Qed.

(** C2, as stated, fails: the lookup in the cached aggregate raises
    [KeyError], the recovery refetches, and the outcome is neither the
    episode nor an empty result but the failure of the refetch: the failed
    call, or the [KeyError] of a payload without 'video'. *)
Lemma episode_metadata_refetch_failure :
  (outcome (episode_metadata_lookup (collab := sample) (VStr "70100")
              (VStr "E2")) stale_metadata_offline = Raise KeyError /\
   outcome (episode_metadata (collab := sample) (VStr "70100") (VStr "S1")
              (VStr "E2")) stale_metadata_offline = Raise CallFailed) /\
  (outcome (episode_metadata_lookup (collab := sample) (VStr "70100")
              (VStr "E2")) stale_metadata_error_payload = Raise KeyError /\
   outcome (episode_metadata (collab := sample) (VStr "70100") (VStr "S1")
              (VStr "E2")) stale_metadata_error_payload = Raise KeyError).
Proof. repeat split; vm_compute; reflexivity. Qed.

Section RateAndTheCache.
Context {fa : FloatArithmetic}.

(** [rate] changes remote state and invalidates nothing: the log gains its
    post, the 'set_video_rating' request for the video, and no invalidation,
    and both tiers and the marker are what they were. *)
Theorem rate_performs_no_invalidation (video_id : value) (rating : pynum)
    (w : world) :
  (exists sent,
     log (after (rate video_id rating) w) =
       log w ++
       [Called {| rq_method := NetflixSession_post;
                  rq_data :=
                    VDict [("component", VStr "set_video_rating");
                           ("headers", json_headers);
                           ("params", VDict [("titleid", video_id);
                                             ("rating", VNum sent)])] |}]) /\
  invalidations_of (log (after (rate video_id rating) w))
    = invalidations_of (log w) /\
  mem (after (rate video_id rating) w) = mem w /\
  disk (after (rate video_id rating) w) = disk w /\
  last_location (after (rate video_id rating) w) = last_location w.
Proof.
  destruct (rate_leaves_cache video_id rating w) as (Hlog & Hm & Hd & Hl).
  rewrite Hlog. repeat split; try done.
  - by exists (netflix_rating rating).
  - by read_log.
Qed.

End RateAndTheCache.

(** The cached aggregate lacks episode E2; the recovery invalidates it,
    refetches once and finds the episode in the fresh aggregate. *)
Lemma episode_metadata_recovers_once_witness :
  outcome (episode_metadata_lookup (collab := sample) (VStr "70100")
             (VStr "E2")) stale_metadata_refreshed = Raise KeyError /\
  outcome (episode_metadata (collab := sample) (VStr "70100") (VStr "S1")
             (VStr "E2")) stale_metadata_refreshed
    = Ok (VDict [("seq", VInt 2)]) /\
  invalidations_of
    (log (after (episode_metadata (collab := sample) (VStr "70100")
                   (VStr "S1") (VStr "E2")) stale_metadata_refreshed))
    = [InvalidatedEntry CACHE_METADATA (VStr "70100")].
Proof.
  pose proof (episode_metadata_recovers_once (collab := sample)
                (VStr "70100") (VStr "S1") (VStr "E2")
                stale_metadata_refreshed) as Hrec.
  assert (episode_metadata_lookup (collab := sample) (VStr "70100")
            (VStr "E2") stale_metadata_refreshed
          = (Raise KeyError, stale_metadata_refreshed)) as Hlookup
    by (vm_compute; reflexivity).
  rewrite Hlookup in Hrec. destruct Hrec as (Hlog & Hout & _).
  split; [by rewrite (f_equal fst Hlookup : outcome _ _ = _) |].
  split.
  - rewrite Hout. vm_compute. reflexivity.
  - rewrite Hlog. vm_compute. reflexivity.
Defined.

(** Two calls of [episodes] for season S1 of two different shows have one
    key. *)
Lemma cache_key_of_designated_argument_witness :
  cache_key (collab := sample) op_episodes [VStr "70100"; VStr "S1"]
    = cache_key (collab := sample) op_episodes [VStr "70200"; VStr "S1"].
Proof.
  apply (proj1 (cache_key_of_designated_argument (collab := sample))).
  reflexivity.
Defined.

(** On a cold cache [metadata] writes its entry, with the metadata TTL, to
    the disk tier as well. *)
Lemma only_metadata_overrides_ttl_and_uses_disk_witness :
  disk (after (metadata (collab := sample) (VStr "70100"))
          (start [Some metadata_payload] false))
    !! (CACHE_METADATA, VStr "70100")
  = Some {| e_value := VDict [("title", VStr "A show");
                              ("seasons",
                               VDict [("S1",
                                       VDict [("episodes",
                                               VDict [("E1",
                                                       VDict [("seq",
                                                               VInt 1)])])])])];
            e_created := 0;
            e_ttl := Lasts 86400 |}.
Proof.
  destruct (only_metadata_overrides_ttl_and_uses_disk (collab := sample))
    as (_ & _ & Hmeta).
  destruct (Hmeta (VStr "70100") (start [Some metadata_payload] false))
    as [Hwrite _]; [vm_compute; reflexivity |].
  eapply Hwrite; vm_compute; reflexivity.
Defined.

(** * Further properties of the module *)

Section Requests.
Context {collab : Collaborators}.

(** ** [build_paths] and the requests built with it *)





End Requests.

Section MoreRating.
Context {fa : FloatArithmetic}.

(** ** Ratings that are ints *)

(** On an int the rating that [rate] posts is an int that saturates
    (anything up to 0 is sent as 0, anything from 10 on as 5), that sends
    every odd rating as the even rating below it (Kodi's 7 and 6 both reach
    Netflix as 3), and that is monotone: a rating that is not smaller is not
    sent as a smaller one. *)
Theorem rate_of_ints (video_id : value) (z : Z) (w : world) :
  exists sent : Z,
    log (after (rate video_id (PInt z)) w) =
      log w ++
      [Called {| rq_method := NetflixSession_post;
                 rq_data :=
                   VDict [("component", VStr "set_video_rating");
                          ("headers", json_headers);
                          ("params", VDict [("titleid", video_id);
                                            ("rating", VNum (PInt sent))])]
              |}] /\
    ((z <= 0)%Z -> sent = 0%Z) /\
    ((10 <= z)%Z -> sent = 5%Z) /\
    (forall k : Z,
       (0 <= k < 5)%Z -> z = (2 * k)%Z \/ z = (2 * k + 1)%Z -> sent = k) /\
    (forall (other_id : value) (z' : Z) (w' : world),
       (z <= z')%Z ->
       exists sent' : Z,
         log (after (rate other_id (PInt z')) w') =
           log w' ++
           [Called {| rq_method := NetflixSession_post;
                      rq_data :=
                        VDict [("component", VStr "set_video_rating");
                               ("headers", json_headers);
                               ("params",
                                VDict [("titleid", other_id);
                                       ("rating", VNum (PInt sent'))])] |}]
         /\ (sent <= sent')%Z).
Proof.
  assert (forall video_id z w,
            log (after (rate video_id (PInt z)) w) =
              log w ++
              [Called {| rq_method := NetflixSession_post;
                         rq_data :=
                           VDict [("component", VStr "set_video_rating");
                                  ("headers", json_headers);
                                  ("params",
                                   VDict [("titleid", video_id);
                                          ("rating",
                                           VNum (PInt (Z.min 10 (Z.max 0 z)
                                                       / 2)))])] |}])
    as Hsent.
  { clear. intros video_id z w.
    unfold after, rate, bind, debug, ret, make_call. simpl.
    rewrite netflix_rating_int. by destruct (service w _ _). }
  exists (Z.min 10 (Z.max 0 z) / 2)%Z.
  split; [apply Hsent |]. split; [| split; [| split]].
  - intros Hz. by replace (Z.min 10 (Z.max 0 z)) with 0%Z by lia.
  - intros Hz. by replace (Z.min 10 (Z.max 0 z)) with 10%Z by lia.
  - intros k Hk [-> | ->].
    + replace (Z.min 10 (Z.max 0 (2 * k))) with (2 * k)%Z by lia.
      symmetry. apply (Z.div_unique _ 2 k 0); lia.
    + replace (Z.min 10 (Z.max 0 (2 * k + 1))) with (2 * k + 1)%Z by lia.
      symmetry. apply (Z.div_unique _ 2 k 1); lia.
  - intros other_id z' w' Hle.
    exists (Z.min 10 (Z.max 0 z') / 2)%Z.
    split; [apply Hsent |]. apply Z.div_le_mono; lia.
Qed.

End MoreRating.

Section MoreResolution.
Context {collab : Collaborators}.

(** ** Which errors leave [list_id_for_type] *)

(** [root_lists] either is answered from memory or makes one remote call. *)
Lemma root_lists_log (w : world) :
  log (after root_lists w) = log w \/
  (lookup_fresh (mem w) root_lists_key (now w) = None /\
   log (after root_lists w) = log w ++ [Called root_lists_request]).
Proof.
  unfold after, root_lists, cache_output, get_or_compute. simpl.
  destruct (lookup_fresh (mem w) _ (now w)) eqn:E; simpl; [by left |].
  right. split; [done |].
  unfold bind, debug, ret, make_call. simpl.
  by destruct (service w _ _).
Qed.

Lemma list_id_for_type_log (list_type : value) (w : world) :
  log (after (list_id_for_type list_type) w) = log w \/
  log (after (list_id_for_type list_type) w)
    = log w ++ [Called root_lists_request].
Proof.
  unfold after, list_id_for_type, cache_output, get_or_compute. simpl.
  destruct (lookup_fresh (mem w) _ (now w)); simpl; [by left |].
  pose proof (root_lists_log w) as Hr. unfold after, bind in *.
  destruct (root_lists w) as [[lolomo | e] w1]; simpl in *.
  - destruct lolomo; simpl; try (destruct Hr as [? | [_ ?]]; by auto).
    destruct (lists_by_context _ list_type) as [| [list_id vl] rest]; simpl;
      destruct Hr as [? | [_ ?]]; by auto.
  - destruct Hr as [? | [_ ?]]; by auto.
Qed.

(** A call of [list_id_for_type] that raises was not answered by an entry
    of its own and has stored no id: the disk tier is what it was, and so is
    every entry of the memory tier except the one of the root lists, which
    the call may have fetched on its way. *)
Theorem failed_resolution_stores_no_id (list_type : value) (e : exn)
    (w : world) :
  outcome (list_id_for_type list_type) w = Raise e ->
  lookup_fresh (mem w) (CACHE_COMMON, list_type) (now w) = None /\
  disk (after (list_id_for_type list_type) w) = disk w /\
  (forall k : key,
     k <> root_lists_key ->
     mem (after (list_id_for_type list_type) w) !! k = mem w !! k).
Proof.
  intros Hraise. split; [| split].
  - revert Hraise.
    unfold outcome, list_id_for_type, cache_output, get_or_compute. simpl.
    by destruct (lookup_fresh (mem w) _ (now w)).
  - by destruct (list_id_for_type_tidy list_type w) as (D & _).
  - intros k Hk. revert Hraise.
    unfold outcome, after, list_id_for_type, cache_output, get_or_compute.
    simpl.
    destruct (lookup_fresh (mem w) _ (now w)); simpl; [done |].
    destruct (root_lists_tidy w) as (_ & _ & _ & _ & _ & _ & F & _).
    unfold after, bind in *.
    destruct (root_lists w) as [[lolomo | x] w1]; simpl in *.
    + intros Hraise.
      destruct lolomo; simpl in *; try by apply F.
      destruct (lists_by_context _ list_type) as [| [list_id vl] rest];
        simpl in *; [by apply F | discriminate Hraise].
    + intros _. by apply F.
Qed.

End MoreResolution.

Section MoreMyList.
Context {collab : Collaborators}.

(** ** Remote calls and refetches around a list modification *)

(** [_update_my_list] talks to the service at most twice: a video id that
    [int()] rejects ends the call before anything is sent or invalidated,
    otherwise the post comes first, and only the selective path may follow
    it with one fetch of the root lists.  With the flag set the post is the
    only call. *)
Theorem update_my_list_remote_calls (video_id : value) (operation : string)
    (w : world) :
  match py_int video_id with
  | Raise e => _update_my_list video_id operation w = (Raise e, w)
  | Ok videoId =>
      let rq := update_my_list_request operation videoId in
      (calls_of (log (after (_update_my_list video_id operation) w))
         = calls_of (log w) ++ [rq] \/
       (settings w full_wipe_flag = false /\
        calls_of (log (after (_update_my_list video_id operation) w))
          = calls_of (log w) ++ [rq; root_lists_request]))
  end.
Proof.
  unfold after. rewrite update_my_list_paths.
  destruct (py_int video_id) as [videoId | e]; [| done]. simpl.
  destruct (service w _ _); simpl.
  2: { left. by rewrite calls_of_app. }
  destruct (settings w full_wipe_flag) eqn:Hflag; simpl.
  { left. by rewrite !calls_of_app, app_nil_r. }
  pose proof (list_id_for_type_log (VStr "queue")
                (selective_start operation videoId w)) as Hl.
  unfold after in Hl.
  destruct (list_id_for_type _ _) as [[list_id | e] w2]; simpl in Hl.
  - destruct (purge_effect list_id w2) as (_ & _ & _ & _ & Hg).
    unfold after in Hg. rewrite Hg.
    destruct Hl as [-> | ->]; simpl; rewrite !calls_of_app; simpl;
      rewrite ?app_nil_r, <- ?app_assoc; simpl; auto.
  - simpl. destruct Hl as [-> | ->]; simpl; rewrite !calls_of_app; simpl;
      rewrite ?app_nil_r, <- ?app_assoc; simpl; auto.
Qed.

(** A call of [root_lists] whose entry is gone from memory goes to the
    service. *)
Lemma root_lists_cold (w : world) :
  mem w !! root_lists_key = None ->
  log (after root_lists w) = log w ++ [Called root_lists_request].
Proof.
  intros Hgone.
  unfold after, root_lists, cache_output, get_or_compute, lookup_fresh.
  simpl. unfold root_lists_key in Hgone. rewrite Hgone.
  unfold bind, debug, ret, make_call. simpl.
  by destruct (service w _ _).
Qed.

(** After a list modification that returned, in either mode, neither tier
    holds the root lists or the resolved 'queue' id any more, so the next
    [root_lists()] and the next [list_id_for_type('queue')] fetch the root
    lists from the service. *)
Theorem list_modification_forces_refetch (video_id : value)
    (operation : string) (w : world) :
  outcome (_update_my_list video_id operation) w = Ok tt ->
  let w' := after (_update_my_list video_id operation) w in
  mem w' !! (CACHE_COMMON, VStr "root_lists") = None /\
  mem w' !! (CACHE_COMMON, VStr "queue") = None /\
  disk w' !! (CACHE_COMMON, VStr "root_lists") = None /\
  disk w' !! (CACHE_COMMON, VStr "queue") = None /\
  log (after root_lists w') = log w' ++ [Called root_lists_request] /\
  log (after (list_id_for_type (VStr "queue")) w')
    = log w' ++ [Called root_lists_request].
Proof.
  intros Hok.
  assert (mem (after (_update_my_list video_id operation) w)
            !! (CACHE_COMMON, VStr "root_lists") = None /\
          mem (after (_update_my_list video_id operation) w)
            !! (CACHE_COMMON, VStr "queue") = None /\
          disk (after (_update_my_list video_id operation) w)
            !! (CACHE_COMMON, VStr "root_lists") = None /\
          disk (after (_update_my_list video_id operation) w)
            !! (CACHE_COMMON, VStr "queue") = None) as (M1 & M2 & D1 & D2).
  { revert Hok. unfold outcome, after. rewrite update_my_list_paths.
    destruct (py_int video_id) as [videoId | e]; [| done]. simpl.
    destruct (service w _ _); simpl; [| done].
    destruct (settings w full_wipe_flag); simpl.
    { intros _. by rewrite !lookup_empty. }
    destruct (list_id_for_type _ _) as [[list_id | e] w2]; [| done].
    intros _.
    destruct (purge_effect list_id w2) as (_ & Hm & Hd & _).
    unfold after in Hm, Hd. rewrite Hm, Hd. unfold root_lists_key.
    rewrite !lookup_delete_eq.
    rewrite !(lookup_delete_ne _ (CACHE_COMMON, VStr "root_lists")) by done.
    by rewrite !lookup_delete_eq. }
  simpl. repeat split; try done.
  - by apply root_lists_cold.
  - unfold after at 1, list_id_for_type, cache_output, get_or_compute,
      lookup_fresh. simpl. rewrite M2.
    pose proof (root_lists_cold _ M1) as Hr.
    unfold after at 1 in Hr. unfold bind.
    destruct (root_lists _) as [[lolomo | e] w1]; simpl in *; [| done].
    destruct lolomo; try done.
    by destruct (lists_by_context _ _) as [| [list_id vl] rest].
Qed.

End MoreMyList.

Section MoreCachedCalls.
Context {collab : Collaborators}.

(** ** Cold caches and failed fetches *)




(** A cached fetch that raises has written nothing: both tiers are what
    they were, so the failure (a failed call, or for [metadata] a payload
    without 'video') is not cached.  [list_id_for_type] is the exception,
    it keeps the root lists it fetched. *)
Theorem failed_fetch_caches_nothing (op : cached_operation)
    (args : list value) (e : exn) (w : world) :
  op <> op_list_id_for_type ->
  outcome (call op args) w = Raise e ->
  mem (after (call op args) w) = mem w /\
  disk (after (call op args) w) = disk w.
Proof.
  intros Hop.
  destruct op; try done;
    destruct args as [| a [| b [| c rest]]]; try done; simpl;
    unfold outcome, after, root_lists, video_list, seasons, episodes,
      episode, movie, metadata, cache_output, get_or_compute;
    simpl;
    (destruct (lookup_fresh (mem w) _ (now w)); simpl; [done |]);
    try (destruct (lookup_fresh (disk w) _ (now w)); simpl; [done |]);
    unfold bind, debug, ret; simpl;
    repeat (rewrite build_paths_run; destruct (json_encodable _); simpl;
            [| done]);
    unfold make_call, lift; simpl;
    destruct (service w _ _) as [response |]; simpl; try done.
  by destruct (py_getitem response "video").
Qed.

End MoreCachedCalls.

Section MoreEpisodeMetadata.
Context {collab : Collaborators}.

(** ** How much [episode_metadata] does *)

Lemma metadata_log (video_id : value) (w : world) :
  log (after (metadata video_id) w) = log w \/
  log (after (metadata video_id) w)
    = log w ++ [Called (metadata_request video_id)].
Proof.
  unfold after, metadata, cache_output, get_or_compute. simpl.
  destruct (lookup_fresh (mem w) _ (now w)); simpl; [by left |].
  destruct (lookup_fresh (disk w) _ (now w)); simpl; [by left |].
  unfold bind, debug, ret, make_call, lift. simpl. right.
  destruct (service w _ _) as [response |]; simpl; [| done].
  by destruct (py_getitem response "video").
Qed.

Lemma episode_metadata_lookup_world (tvshowid episodeid : value) (w : world) :
  after (episode_metadata_lookup tvshowid episodeid) w
    = after (metadata tvshowid) w.
Proof.
  unfold after, episode_metadata_lookup, bind, lift.
  destruct (metadata tvshowid w) as [[video | e] w1]; simpl; [| done].
  by destruct (py_getitem video "seasons").
Qed.

Ltac extends_log :=
  first [ by (exists []; rewrite app_nil_r)
        | by (rewrite <- ?app_assoc; eexists) ].

(** One call of [episode_metadata] makes at most two remote calls (the
    aggregate and one refetch) and at most one invalidation, and it only
    ever adds to the log. *)
Theorem episode_metadata_effort (tvshowid seasonid episodeid : value)
    (w : world) :
  (length (calls_of
             (log (after (episode_metadata tvshowid seasonid episodeid) w)))
   <= length (calls_of (log w)) + 2)%nat /\
  (length (invalidations_of
             (log (after (episode_metadata tvshowid seasonid episodeid) w)))
   <= length (invalidations_of (log w)) + 1)%nat /\
  exists events,
    log (after (episode_metadata tvshowid seasonid episodeid) w)
      = log w ++ events.
Proof.
  pose proof (metadata_log tvshowid w) as Hm.
  rewrite <- episode_metadata_lookup_world with (episodeid := episodeid)
    in Hm.
  unfold after at 1 2 3, episode_metadata, try_except.
  unfold after in Hm.
  destruct (episode_metadata_lookup tvshowid episodeid w) as [[v | e] w1];
    simpl in *.
  { destruct Hm as [-> | ->]; rewrite ?calls_of_app, ?invalidations_of_app,
      ?length_app; simpl; repeat split; try lia; extends_log. }
  destruct (is_KeyError e); simpl.
  2: { destruct Hm as [-> | ->]; rewrite ?calls_of_app, ?invalidations_of_app,
         ?length_app; simpl; repeat split; try lia; extends_log. }
  destruct (metadata_after_invalidation tvshowid w1) as [Hlog _].
  unfold after in Hlog. simpl in Hlog.
  unfold episode_metadata_recovery, bind, lift.
  change (invalidate_entry CACHE_METADATA tvshowid w1)
    with (Ok tt, (invalidate_entry CACHE_METADATA tvshowid w1).2).
  simpl.
  destruct (metadata tvshowid _) as [[video | x] w2]; simpl in *;
    rewrite Hlog;
    destruct Hm as [-> | ->]; rewrite ?calls_of_app, ?invalidations_of_app,
      ?length_app; simpl; repeat split; try lia; extends_log.
Qed.

End MoreEpisodeMetadata.

(** ** The further properties at concrete worlds *)

(** On a cold cache with root lists that hold no 'queue' list the call
    raises its own error and stores no id for 'queue'. *)
Lemma failed_resolution_stores_no_id_witness :
  outcome (list_id_for_type (collab := sample) (VStr "queue"))
    (start [Some lolomo_without_queue] false)
    = Raise (InvalidVideoListTypeError (VStr "queue")) /\
  mem (after (list_id_for_type (collab := sample) (VStr "queue"))
         (start [Some lolomo_without_queue] false))
    !! (CACHE_COMMON, VStr "queue") = None.
Proof.
  assert (outcome (list_id_for_type (collab := sample) (VStr "queue"))
            (start [Some lolomo_without_queue] false)
          = Raise (InvalidVideoListTypeError (VStr "queue"))) as Hraise
    by (vm_compute; reflexivity).
  split; [exact Hraise |].
  destruct (failed_resolution_stores_no_id (collab := sample) (VStr "queue")
              _ _ Hraise) as (_ & _ & Hkeep).
  rewrite Hkeep by discriminate. reflexivity.
Defined.

(** With everything around my list cached, a title is added; the next
    [root_lists()] goes to the service. *)
Lemma list_modification_forces_refetch_witness :
  log (after (root_lists (collab := sample))
         (after (_update_my_list (collab := sample) (VStr "80100172") "add")
            my_list_cached))
  = log (after (_update_my_list (collab := sample) (VStr "80100172") "add")
           my_list_cached) ++ [Called root_lists_request].
Proof.
  destruct (list_modification_forces_refetch (collab := sample)
              (VStr "80100172") "add" my_list_cached)
    as (_ & _ & _ & _ & Hroot & _).
  - vm_compute. reflexivity.
  - exact Hroot.
Defined.


(** A metadata payload without 'video' raises [KeyError] and is not
    cached. *)
Lemma failed_fetch_caches_nothing_witness :
  outcome (call (collab := sample) op_metadata [VStr "70100"])
    (start [Some (VDict [("status", VStr "error")])] false)
    = Raise KeyError /\
  mem (after (call (collab := sample) op_metadata [VStr "70100"])
         (start [Some (VDict [("status", VStr "error")])] false)) = ∅ /\
  disk (after (call (collab := sample) op_metadata [VStr "70100"])
          (start [Some (VDict [("status", VStr "error")])] false)) = ∅.
Proof.
  assert (outcome (call (collab := sample) op_metadata [VStr "70100"])
            (start [Some (VDict [("status", VStr "error")])] false)
          = Raise KeyError) as Hraise by (vm_compute; reflexivity).
  split; [exact Hraise |].
  apply (failed_fetch_caches_nothing (collab := sample) op_metadata
           [VStr "70100"] KeyError _ ltac:(discriminate) Hraise).
Defined.
